(** * notion-translator: a shallow embedding of [main.py]

    The program copies a Notion page: it fetches the page and its child
    blocks, rewrites the JSON it received, creates a sibling page and
    uploads the blocks in batches.  Everything it manipulates is JSON
    decoded from an HTTP response, and almost everything it does is an
    in-place update of such a decoded object.

    The embedding keeps both aspects:
    - JSON values are a tree type [json]; a Python [dict] is a finite map
      from strings ([gmap string json]) and a Python [list] is a [list];
    - every decoded document lives in a store of roots, and a Python
      reference to an object is a root together with the access path that
      reaches it.  Two references denote the same object exactly when
      they are the same path of the same root, which is the aliasing the
      program can observe on decoded JSON (whose objects are never
      shared between two parents);
    - the code runs in a state-and-exception monad over the store and a
      trace of the externally visible events (standard streams, browser,
      HTTP calls); exceptions keep the state reached so far;
    - the HTTP clients, [json.dumps], string formatting and [str.upper]
      are an interface ([External]) the definitions are parameterised by;
    - the [while has_more] loop runs as long as the server says so: it
      takes a bound on the number of pages and ends in [OutOfFuel] beyond
      it.

    Left out: JSON numbers are integers, the order of the keys of a dict
    is not kept (it only shows in printed text, which is abstract), and
    the construction of the two clients at module level is taken to have
    succeeded.  [main] is the command's body; [program] puts the
    credential checks of the module in front of it. *)

From stdpp Require Import base strings list gmap.
From Stdlib Require Import ZArith Ascii Lia.

#[local] Set Warnings "-register-all".
#[local] Open Scope string_scope.
#[local] Open Scope list_scope.
#[local] Open Scope nat_scope.

(** ** JSON values *)

Inductive json :=
| JNull
| JBool (b : bool)
| JNum (n : Z)
| JStr (s : string)
| JList (l : list json)
| JDict (d : gmap string json).

(** One subscript: [obj["k"]] or [obj[i]] (only non-negative indices
    occur on JSON in the program). *)
Inductive step :=
| Key (k : string)
| Idx (i : nat).

(** A reference: the decoded document it lives in and the path to it. *)
Record ref := Ref { ref_root : nat; ref_path : list step }.

Definition ref_child (r : ref) (s : step) : ref :=
  Ref (ref_root r) (ref_path r ++ [s]).

(** ** Exceptions, events, outcomes *)

Inductive exn :=
| KeyError (k : step)
| IndexError
| TypeError
| AttributeError
| ApiError (msg : string)
| SystemExit (code : Z).

(** [except Exception] does not catch [SystemExit]. *)
Definition is_Exception (e : exn) : bool :=
  match e with
  | SystemExit _ => false
  | _ => true
  end.

Inductive event :=
| EvStdout (text : string)
| EvStderr (text : string)
| EvOpenUrl (url : json)
| EvPagesRetrieve (page_id : string)
| EvChildrenList (block_id cursor : json) (page_size : Z)
| EvPagesCreate (request : json)
| EvChildrenAppend (block_id : json) (children : list json)
| EvTranslate (text : json) (from_lang to_lang : string).

(** What an external service answers: a decoded JSON document, or an
    exception raised by the client library. *)
Inductive reply :=
| Answer (j : json)
| Failure (msg : string).

(** Python builtins and third-party clients the program calls:
    [str.upper]; [to_prettified_json] (lines 124-125, [json.dumps] with an
    indent) and the texts an f-string gives an exception or a value; the
    DeepL translator; the four Notion endpoints. *)
Class External := {
  str_upper : string → string;
  to_prettified_json : json → string;
  str_of_exn : exn → string;
  str_of_json : json → string;
  translator_translate : json → string → string → reply;
  notion_pages_retrieve : string → reply;
  notion_blocks_children_list : json → json → Z → reply;
  notion_pages_create : json → reply;
  notion_blocks_children_append : json → list json → reply;
}.

Record world := World { heap : list json; trace : list event }.

Inductive outcome (A : Type) :=
| Return (a : A)
| Raise (e : exn)
| OutOfFuel
| Dangling.
Arguments Return {A} a.
Arguments Raise {A} e.
Arguments OutOfFuel {A}.
Arguments Dangling {A}.

(** ** The monad *)

Definition M (A : Type) : Type := world → outcome A * world.

Definition ret {A} (a : A) : M A := fun w => (Return a, w).

Definition bind {A B} (c : M A) (k : A → M B) : M B :=
  fun w =>
    match c w with
    | (Return a, w') => k a w'
    | (Raise e, w') => (Raise e, w')
    | (OutOfFuel, w') => (OutOfFuel, w')
    | (Dangling, w') => (Dangling, w')
    end.

Definition raise {A} (e : exn) : M A := fun w => (Raise e, w).
Definition out_of_fuel {A} : M A := fun w => (OutOfFuel, w).
Definition dangling {A} : M A := fun w => (Dangling, w).

(** [try: c except Exception as e: h e] *)
Definition try_except {A} (c : M A) (h : exn → M A) : M A :=
  fun w =>
    match c w with
    | (Raise e, w') => if is_Exception e then h e w' else (Raise e, w')
    | r => r
    end.

#[export] Instance M_ret : MRet M := @ret.
#[export] Instance M_bind : MBind M := λ A B k c, bind c k.

Definition emit (e : event) : M unit :=
  fun w => (Return tt, World (heap w) (trace w ++ [e])).

Definition when (b : bool) (c : M unit) : M unit :=
  if b then c else ret tt.

Fixpoint mapM {A B} (f : A → M B) (l : list A) : M (list B) :=
  match l with
  | [] => ret []
  | a :: l' => b ← f a; bs ← mapM f l'; ret (b :: bs)
  end.

(** [for x in l: acc = f acc x] *)
Fixpoint foldM {A B} (f : A → B → M A) (a : A) (l : list B) : M A :=
  match l with
  | [] => ret a
  | b :: l' => a' ← f a b; foldM f a' l'
  end.

(** ** Python's operations on a JSON value *)

(** [t[i]] on a text.  A [string] is the byte sequence of the UTF-8
    text, so a position counts bytes; it is Python's character position
    on ASCII texts. *)
Definition one_char (s : string) (i : nat) : option string :=
  match String.get i s with
  | Some c => Some (String c EmptyString)
  | None => None
  end.

(** [j[s]] *)
Definition subscript (j : json) (s : step) : exn + json :=
  match j, s with
  | JDict d, Key k =>
      match d !! k with Some v => inr v | None => inl (KeyError s) end
  | JDict d, Idx _ => inl (KeyError s)
  | JList l, Idx i =>
      match l !! i with Some v => inr v | None => inl IndexError end
  | JStr t, Idx i =>
      match one_char t i with Some c => inr (JStr c) | None => inl IndexError end
  | _, _ => inl TypeError
  end.

(** [j[k] = v] for a string key *)
Definition store_subscript (k : string) (v : json) (j : json) : exn + json :=
  match j with
  | JDict d => inr (JDict (<[k := v]> d))
  | _ => inl TypeError
  end.

(** [j.pop(k, None)] *)
Definition pop_default (k : string) (j : json) : exn + json :=
  match j with
  | JDict d => inr (JDict (delete k d))
  | JList _ => inl TypeError
  | _ => inl AttributeError
  end.

Definition is_str (k : string) (j : json) : bool :=
  match j with
  | JStr s => String.eqb s k
  | _ => false
  end.

Definition is_substring (k s : string) : bool :=
  match String.index 0 k s with Some _ => true | None => false end.

(** [k in j] *)
Definition contains (k : string) (j : json) : exn + bool :=
  match j with
  | JDict d => inr (bool_decide (is_Some (d !! k)))
  | JList l => inr (existsb (is_str k) l)
  | JStr s => inr (is_substring k s)
  | _ => inl TypeError
  end.

(** Truth value of [j] in an [if]. *)
Definition truthy (j : json) : bool :=
  match j with
  | JNull => false
  | JBool b => b
  | JNum n => negb (n =? 0)%Z
  | JStr s => negb (String.eqb s "")
  | JList l => negb (bool_decide (l = []))
  | JDict d => negb (bool_decide (d = ∅))
  end.

(** [j + s] for a string [s] (list and number operands reject a string). *)
Definition add_str (j : json) (s : string) : exn + json :=
  match j with
  | JStr t => inr (JStr (t +:+ s))
  | _ => inl TypeError
  end.

(** ** Following and updating a path inside a document *)

Fixpoint json_at (p : list step) (j : json) : option json :=
  match p with
  | [] => Some j
  | s :: p' =>
      match j, s with
      | JDict d, Key k => d !! k ≫= json_at p'
      | JList l, Idx i => l !! i ≫= json_at p'
      | _, _ => None
      end
  end.

(** [json_update p f j] applies the in-place operation [f] to the object
    at [p]: [None] when the path does not exist, [Some (inl e)] when the
    operation raises [e]. *)
Fixpoint json_update (p : list step) (f : json → exn + json) (j : json)
  : option (exn + json) :=
  match p with
  | [] => Some (f j)
  | s :: p' =>
      match j, s with
      | JDict d, Key k =>
          match d !! k ≫= json_update p' f with
          | Some (inr c) => Some (inr (JDict (<[k := c]> d)))
          | Some (inl e) => Some (inl e)
          | None => None
          end
      | JList l, Idx i =>
          match l !! i ≫= json_update p' f with
          | Some (inr c) => Some (inr (JList (<[i := c]> l)))
          | Some (inl e) => Some (inl e)
          | None => None
          end
      | _, _ => None
      end
  end.

Definition heap_at (h : list json) (r : ref) : option json :=
  h !! ref_root r ≫= json_at (ref_path r).

Definition heap_update (h : list json) (r : ref) (f : json → exn + json)
  : option (exn + list json) :=
  match h !! ref_root r ≫= json_update (ref_path r) f with
  | Some (inr j) => Some (inr (<[ref_root r := j]> h))
  | Some (inl e) => Some (inl e)
  | None => None
  end.

(** ** Store primitives *)

(** A freshly decoded or freshly built object. *)
Definition alloc (j : json) : M ref :=
  fun w => (Return (Ref (length (heap w)) []), World (heap w ++ [j]) (trace w)).

(** The current value of the object behind a reference. *)
Definition load (r : ref) : M json :=
  fun w =>
    match heap_at (heap w) r with
    | Some j => (Return j, w)
    | None => (Dangling, w)
    end.

Definition lift {A} (x : exn + A) : M A :=
  match x with
  | inr a => ret a
  | inl e => raise e
  end.

(** [r[s]] as a reference to the element.  An element of a dict or of a
    list is reached in place; a character of a string is a new immutable
    string. *)
Definition getitem (r : ref) (s : step) : M ref :=
  j ← load r;
  v ← lift (subscript j s);
  match j with
  | JStr _ => alloc v
  | _ => ret (ref_child r s)
  end.

Definition mutate (r : ref) (f : json → exn + json) : M unit :=
  fun w =>
    match heap_update (heap w) r f with
    | Some (inr h') => (Return tt, World h' (trace w))
    | Some (inl e) => (Raise e, w)
    | None => (Dangling, w)
    end.

(** [r[k] = v] *)
Definition setitem (r : ref) (k : string) (v : json) : M unit :=
  mutate r (store_subscript k v).

(** [r.pop(k, None)] *)
Definition pop (r : ref) (k : string) : M unit :=
  mutate r (pop_default k).

(** [k in r] *)
Definition has_key (k : string) (r : ref) : M bool :=
  j ← load r; lift (contains k j).

(** [for x in r]: the references the loop variable takes.  Elements of a
    list are reached in place; the keys of a dict and the characters of a
    string are fresh immutable strings. *)
Definition iterate (r : ref) : M (list ref) :=
  j ← load r;
  match j with
  | JList l => ret (map (fun i => ref_child r (Idx i)) (seq 0 (length l)))
  | JDict d => mapM (fun kv => alloc (JStr kv.1)) (map_to_list d)
  | JStr s =>
      mapM (fun c => alloc (JStr (String c EmptyString))) (String.list_ascii_of_string s)
  | _ => raise TypeError
  end.

Section Program.
Context `{External}.

(** Calls to the outside world: log the request, decode the answer. *)
Definition answer (rp : reply) : M ref :=
  match rp with
  | Answer j => alloc j
  | Failure msg => raise (ApiError msg)
  end.

Definition open_url (url : json) : M unit := emit (EvOpenUrl url).

Definition print (text : string) : M unit := emit (EvStdout (text +:+ "
")).

(** ** [translate_text] (lines 42-50) *)

Definition translate_run (each : ref) (from_lang to_lang : string) : M unit :=
  b ← has_key "plain_text" each;
  if b : bool then
    pt ← getitem each (Key "plain_text");
    text ← load pt;
    emit (EvTranslate text from_lang to_lang);;
    result ← answer (translator_translate text from_lang to_lang);
    v ← load result;
    setitem each "plain_text" v;;
    b' ← has_key "text" each;
    if b' : bool then
      pt' ← getitem each (Key "plain_text");
      v' ← load pt';
      t ← getitem each (Key "text");
      setitem t "content" v'
    else ret tt
  else ret tt.

Definition translate_text (rich_text_array : ref) (from_lang to_lang : string)
  : M unit :=
  runs ← iterate rich_text_array;
  mapM (fun each => translate_run each from_lang to_lang) runs;;
  ret tt.

(** ** Supported languages (lines 54-112) *)

Definition supported_from_langs : list string :=
  [ "BG"; "CS"; "DA"; "DE"; "EL"; "EN"; "ES"; "ET"; "FI"; "FR"; "HU"; "ID";
    "IT"; "JA"; "LT"; "LV"; "NL"; "PL"; "PT"; "RO"; "RU"; "SK"; "SL"; "SV";
    "TR"; "ZH" ].

Definition supported_to_langs : list string :=
  [ "BG"; "CS"; "DA"; "DE"; "EL"; "EN-GB"; "EN-US"; "ES"; "ET"; "FI"; "FR";
    "HU"; "ID"; "IT"; "JA"; "LT"; "LV"; "NL"; "PL"; "PT-PT"; "PT-BR"; "RO";
    "RU"; "SK"; "SL"; "SV"; "TR"; "ZH" ].

(** ** [remove_unnecessary_properties] (lines 128-137) *)

Definition keys_to_remove : list string :=
  [ "id"; "created_time"; "last_edited_time"; "created_by"; "last_edited_by" ].

Definition remove_unnecessary_properties (obj : ref) : M unit :=
  mapM (fun key => pop obj key) keys_to_remove;; ret tt.

(** ** [build_translated_blocks] (lines 150-179) *)

(** The body of the [for] loop (lines 163-173); [continue] leaves
    [translated_blocks] as it is. *)
Definition block_step (nested_depth : Z) (translated_blocks : list ref)
    (result : ref) : M (list ref) :=
  let b := result in
  when (nested_depth >=? 2)%Z (setitem b "has_children" (JBool false));;
  is_column_list ←
    (if (nested_depth =? 1)%Z
     then t ← getitem b (Key "type"); v ← load t; ret (is_str "column_list" v)
     else ret false);
  if is_column_list : bool then
    cl ← getitem b (Key "column_list");
    setitem cl "children" (JList []);;
    ret translated_blocks
  else
    t ← getitem b (Key "type");
    v ← load t;
    if is_str "unsupported" v then ret translated_blocks
    else
      remove_unnecessary_properties b;;
      ret (translated_blocks ++ [b])%list.

(** The [while has_more] loop; the server decides how long it runs. *)
Fixpoint fetch_loop (fuel : nat) (block_id : json) (nested_depth : Z)
    (debug : bool) (cursor : json) (translated_blocks : list ref)
  : M (list ref) :=
  match fuel with
  | O => out_of_fuel
  | S fuel' =>
      emit (EvChildrenList block_id cursor 100);;
      blocks ← answer (notion_blocks_children_list block_id cursor 100);
      when debug
        (r ← getitem blocks (Key "results");
         v ← load r;
         print ("Fetched original blocks: " +:+ to_prettified_json v));;
      emit (EvStdout ".");;
      results ← getitem blocks (Key "results");
      items ← iterate results;
      translated_blocks ← foldM (block_step nested_depth) translated_blocks items;
      hm ← getitem blocks (Key "has_more");
      more ← load hm;
      if truthy more then
        c ← getitem blocks (Key "next_cursor");
        cursor ← load c;
        fetch_loop fuel' block_id nested_depth debug cursor translated_blocks
      else ret translated_blocks
  end.

Definition build_translated_blocks (fuel : nat) (block_id : json)
    (nested_depth : Z) (debug : bool) : M (list ref) :=
  fetch_loop fuel block_id nested_depth debug JNull [].

(** ** [create_new_page_for_translation] (lines 182-203) *)

(** [json.loads(json.dumps(obj))]: a new document with the same value. *)
Definition deep_copy (obj : ref) : M ref :=
  j ← load obj; alloc j.

Definition lang_suffix (to_lang : string) : string :=
  " (" +:+ to_lang +:+ ")".

Definition create_new_page_for_translation (original_page : ref)
    (to_lang : string) (debug : bool) : M ref :=
  new_page ← deep_copy original_page;
  id ← getitem original_page (Key "id");
  idv ← load id;
  setitem new_page "parent" (JDict {[ "page_id" := idv ]});;
  props ← getitem original_page (Key "properties");
  has_title ← has_key "title" props;
  original_title ←
    (if has_title : bool then
       p ← getitem original_page (Key "properties");
       t ← getitem p (Key "title");
       tt ← getitem t (Key "title");
       getitem tt (Idx 0)
     else alloc (JDict {[ "plain_text" := JStr "Translated page" ]}));
  np ← getitem new_page (Key "properties");
  nt ← getitem np (Key "title");
  ntt ← getitem nt (Key "title");
  new_title ← getitem ntt (Idx 0);
  ot ← getitem original_title (Key "text");
  oc ← getitem ot (Key "content");
  content ← load oc;
  content' ← lift (add_str content (lang_suffix to_lang));
  ntx ← getitem new_title (Key "text");
  setitem ntx "content" content';;
  op ← getitem original_title (Key "plain_text");
  plain ← load op;
  plain' ← lift (add_str plain (lang_suffix to_lang));
  setitem new_title "plain_text" plain';;
  remove_unnecessary_properties new_page;;
  request ← load new_page;
  when debug
    (print ("New page creation request params: " +:+ to_prettified_json request));;
  (match request with JDict _ => ret tt | _ => raise TypeError end);;
  emit (EvPagesCreate request);;
  new_page_creation ← answer (notion_pages_create request);
  when debug
    (v ← load new_page_creation;
     print ("New page creation response: " +:+ to_prettified_json v));;
  ret new_page_creation.

(** ** [main] (lines 223-281) *)

(** [s.split(sep)] for a one-character separator. *)
Fixpoint split (sep : Ascii.ascii) (s : string) : list string :=
  match s with
  | EmptyString => [EmptyString]
  | String c s' =>
      if Ascii.eqb c sep then EmptyString :: split sep s'
      else
        match split sep s' with
        | piece :: rest => String c piece :: rest
        | [] => [String c EmptyString]
        end
  end.

(** [l[-1]] *)
Definition last_item {A} (l : list A) : exn + A :=
  match last l with
  | Some a => inr a
  | None => inl IndexError
  end.

(** [url.split("/")[-1].split("-")[-1]] (line 238) *)
Definition content_id_of (url : string) : exn + string :=
  match last_item (split "/"%char url) with
  | inr segment => last_item (split "-"%char segment)
  | inl e => inl e
  end.

Definition page_size : nat := 10.

(** [l[b:e]] for [0 <= b <= e <= len(l)] *)
Definition slice {A} (l : list A) (b e : nat) : list A :=
  take (e - b) (drop b l).

(** The upload loop (lines 261-272).  [end_index] grows at every turn, so
    [length translated_blocks] turns are always enough. *)
Fixpoint upload_loop (fuel : nat) (new_page : ref) (translated_blocks : list ref)
    (debug : bool) (end_index : nat) : M unit :=
  if bool_decide (end_index < length translated_blocks) then
    match fuel with
    | O => out_of_fuel
    | S fuel' =>
        let begin_index := end_index in
        let end_index := min (begin_index + page_size) (length translated_blocks) in
        let reduced_blocks := slice translated_blocks begin_index end_index in
        id ← getitem new_page (Key "id");
        block_id ← load id;
        children ← mapM load reduced_blocks;
        emit (EvChildrenAppend block_id children);;
        blocks_addition ← answer (notion_blocks_children_append block_id children);
        when debug
          (v ← load blocks_addition;
           print ("Block creation response: " +:+ to_prettified_json v));;
        upload_loop fuel' new_page translated_blocks debug end_index
    end
  else ret tt.

Definition upload_blocks (new_page : ref) (translated_blocks : list ref)
    (debug : bool) : M unit :=
  upload_loop (length translated_blocks) new_page translated_blocks debug 0.

Definition unsupported_language (code : string) : M unit :=
  emit (EvStderr ("ERROR: " +:+ str_upper code +:+ " is not a supported language code..."));;
  raise (SystemExit 1).

Definition main (fuel : nat) (from_lang to_lang url : string) (debug : bool)
  : M unit :=
  if negb (bool_decide (str_upper from_lang ∈ supported_from_langs)) then
    unsupported_language from_lang
  else if negb (bool_decide (str_upper to_lang ∈ supported_to_langs)) then
    unsupported_language to_lang
  else
    original_page ←
      try_except
        (content_id ← lift (content_id_of url);
         emit (EvPagesRetrieve content_id);;
         answer (notion_pages_retrieve content_id))
        (λ e,
          emit (EvStderr ("
ERROR: Failed to read the page content!

Error details: " +:+ str_of_exn e +:+ "
"));;
          raise (SystemExit 1));
    when debug
      (v ← load original_page;
       print ("The page metadata: " +:+ to_prettified_json v));;
    emit (EvStdout ("
Wait a minute! Now translating the Notion page: " +:+ url +:+ "

(this may take some time) ..."));;
    id ← getitem original_page (Key "id");
    block_id ← load id;
    translated_blocks ← build_translated_blocks fuel block_id 0 debug;
    new_page ← create_new_page_for_translation original_page to_lang debug;
    nid ← getitem new_page (Key "id");
    new_id ← load nid;
    when debug
      (children ← mapM load translated_blocks;
       print ("Block creation request params: " +:+
              to_prettified_json
                (JDict {[ "block_id" := new_id; "children" := JList children ]})));;
    upload_blocks new_page translated_blocks debug;;
    print "... Done!

Disclaimer:
Some parts might not be perfect.
If the generated page is missing something, please adjust the details on your own.
";;
    u ← getitem new_page (Key "url");
    new_url ← load u;
    print ("Here is the translated Notion page: " +:+ str_of_json new_url +:+ "
");;
    u' ← getitem new_page (Key "url");
    new_url' ← load u';
    open_url new_url'.

End Program.

(** ** A concrete environment for the examples

    An ASCII [str.upper], a translator that tags its input, a server that
    answers one page of two blocks. *)

Definition ascii_upper_char (c : ascii) : ascii :=
  let n := nat_of_ascii c in
  if (97 <=? n)%nat && (n <=? 122)%nat then ascii_of_nat (n - 32) else c.

Fixpoint ascii_upper (s : string) : string :=
  match s with
  | EmptyString => EmptyString
  | String c s' => String (ascii_upper_char c) (ascii_upper s')
  end.

Definition column_list_block : json :=
  JDict {[ "id" := JStr "b1"; "type" := JStr "column_list";
           "has_children" := JBool true;
           "column_list" := JDict {[ "children" := JList [JStr "column"] ]} ]}.

Definition paragraph_block : json :=
  JDict {[ "id" := JStr "b2"; "type" := JStr "paragraph";
           "has_children" := JBool false; "created_time" := JStr "today" ]}.

Definition hello_run : json :=
  JDict {[ "text" := JDict {[ "content" := JStr "Hello" ]};
           "plain_text" := JStr "Hello" ]}.

Definition hello_page : json :=
  JDict {[ "id" := JStr "abc123"; "url" := JStr "https://www.notion.so/abc123";
           "properties" :=
             JDict {[ "title" := JDict {[ "title" := JList [hello_run] ]} ]} ]}.

Definition untitled_page : json :=
  JDict {[ "id" := JStr "abc123"; "properties" := JDict ∅ ]}.

Definition example_services : External := {|
  str_upper := ascii_upper;
  to_prettified_json := λ _, "<json>";
  str_of_exn := λ _, "<exception>";
  str_of_json := λ j, match j with JStr s => s | _ => "<json>" end;
  translator_translate := λ text _ to_lang,
    match text with
    | JStr s => Answer (JStr (to_lang +:+ ":" +:+ s))
    | _ => Failure "text must be a string"
    end;
  notion_pages_retrieve := λ _, Answer hello_page;
  notion_blocks_children_list := λ _ _ _,
    Answer (JDict {[ "results" := JList [column_list_block; paragraph_block];
                     "has_more" := JBool false; "next_cursor" := JNull ]});
  notion_pages_create := λ _,
    Answer (JDict {[ "id" := JStr "new"; "url" := JStr "https://www.notion.so/new" ]});
  notion_blocks_children_append := λ _ _, Answer JNull;
|}.

Definition empty_world : world := World [] [].

Definition example_blocks : list json :=
  [JStr "b0"; JStr "b1"; JStr "b2"; JStr "b3"; JStr "b4"; JStr "b5";
   JStr "b6"; JStr "b7"; JStr "b8"; JStr "b9"; JStr "b10"].

(** ** Writing at a path

    [json_put p x j] is [j] with the object at [p] replaced by [x]; it is
    what a successful in-place operation at [p] leaves behind. *)

Fixpoint json_put (p : list step) (x : json) (j : json) : json :=
  match p with
  | [] => x
  | s :: p' =>
      match j, s with
      | JDict d, Key k =>
          match d !! k with
          | Some c => JDict (<[k := json_put p' x c]> d)
          | None => j
          end
      | JList l, Idx i =>
          match l !! i with
          | Some c => JList (<[i := json_put p' x c]> l)
          | None => j
          end
      | _, _ => j
      end
  end.

Definition heap_put (h : list json) (r : ref) (x : json) : list json :=
  match h !! ref_root r with
  | Some doc => <[ref_root r := json_put (ref_path r) x doc]> h
  | None => h
  end.

(** The keys that survive [remove_unnecessary_properties]. *)
Definition stripped (d : gmap string json) : gmap string json :=
  foldl (λ m k, delete k m) d keys_to_remove.

(** The page-creation requests in a trace. *)
Definition creation_requests (tr : list event) : list json :=
  omap (λ e, match e with EvPagesCreate r => Some r | _ => None end) tr.

(** The request [create_new_page_for_translation] builds from a page
    [d] whose first title run [rd] has the content [c] and the plain text
    [p], and the rest of the function, from the request on. *)
Definition new_page_request (d : gmap string json) (idv : json)
    (props td rd : gmap string json) (rest : list json)
    (txt : gmap string json) (c p to_lang : string) : json :=
  let run :=
    JDict (<["plain_text" := JStr (p +:+ lang_suffix to_lang)]>
             (<["text" := JDict (<["content" := JStr (c +:+ lang_suffix to_lang)]> txt)]>
                rd)) in
  let props' :=
    <["title" := JDict (<["title" := JList (run :: rest)]> td)]> props in
  JDict (stripped
           (<["properties" := JDict props']>
              (<["parent" := JDict {[ "page_id" := idv ]}]> d))).

Definition submit_new_page `{External} (request : json) (debug : bool) : M ref :=
  when debug
    (print ("New page creation request params: " +:+ to_prettified_json request));;
  (match request with JDict _ => ret tt | _ => raise TypeError end);;
  emit (EvPagesCreate request);;
  new_page_creation ← answer (notion_pages_create request);
  when debug
    (v ← load new_page_creation;
     print ("New page creation response: " +:+ to_prettified_json v));;
  ret new_page_creation.

(** ** Frame: what a computation leaves alone

    [safe n Φ c]: started in a store with at least [n] documents, [c]
    leaves the first [n] documents as they are, and a result it returns
    satisfies [Φ]. *)

Definition fresh (n : nat) (r : ref) : Prop := n ≤ ref_root r.

Definition safe {A} (n : nat) (Φ : A → Prop) (c : M A) : Prop :=
  ∀ w, n ≤ length (heap w) →
    take n (heap (c w).2) = take n (heap w) ∧
    n ≤ length (heap (c w).2) ∧
    ∀ a, (c w).1 = Return a → Φ a.

(** The batches passed to the append endpoint, in call order. *)
Definition appended_batches (tr : list event) : list (list json) :=
  omap (λ e, match e with EvChildrenAppend _ c => Some c | _ => None end) tr.

(** [ceil(n / d)] *)
Definition ceil_div (n d : nat) : nat := (n + (d - 1)) / d.

(** ** The effect of [translate_text] on one run

    [translated_run t rd] is the run [rd] once its plain text has been
    translated to [t]; [translatable] says that the loop body runs
    through on a run: it is a JSON object and, when it has a plain text,
    the service answers for it and its "text" field, if any, is an object;
    [translate_value] is the run the loop body leaves. *)
Definition translated_run (t : json) (rd : gmap string json) : gmap string json :=
  let rd' := <["plain_text" := t]> rd in
  match rd !! "text" with
  | Some (JDict td) => <["text" := JDict (<["content" := t]> td)]> rd'
  | _ => rd'
  end.

Definition translatable `{External} (from_lang to_lang : string) (run : json)
  : bool :=
  match run with
  | JDict rd =>
      match rd !! "plain_text" with
      | Some p =>
          match translator_translate p from_lang to_lang, rd !! "text" with
          | Answer _, (None | Some (JDict _)) => true
          | _, _ => false
          end
      | None => true
      end
  | _ => false
  end.

Definition translate_value `{External} (from_lang to_lang : string) (run : json)
  : json :=
  match run with
  | JDict rd =>
      match rd !! "plain_text" with
      | Some p =>
          match translator_translate p from_lang to_lang with
          | Answer t => JDict (translated_run t rd)
          | Failure _ => run
          end
      | None => run
      end
  | _ => run
  end.

(** ** Column lists

    A fetched block is a column list when its "type" is "column_list";
    its children are cleared when column_list.children is the empty
    list. *)
Definition is_column_list (x : json) : bool :=
  match x with
  | JDict bd =>
      match bd !! "type" with
      | Some t => is_str "column_list" t
      | None => false
      end
  | _ => false
  end.

Definition children_cleared (x : json) : bool :=
  match x with
  | JDict bd =>
      match bd !! "column_list" with
      | Some (JDict cld) =>
          match cld !! "children" with
          | Some (JList []) => true
          | _ => false
          end
      | _ => false
      end
  | _ => false
  end.

(** The loop invariant of the fetch at depth 1: in every document added
    since the store had [n0] documents, a fetched block that is a column
    list has its children cleared; and no collected block is a column
    list. *)
Definition columns_cleared (n0 : nat) (h : list json) : Prop :=
  ∀ ρ i x,
    n0 ≤ ρ →
    heap_at h (Ref ρ [Key "results"; Idx i]) = Some x →
    is_column_list x = true → children_cleared x = true.

Definition no_column_list (h : list json) (refs : list ref) : Prop :=
  Forall (λ r, ∃ x, heap_at h r = Some x ∧ is_column_list x = false) refs.

(** ** Start-up (lines 15-35) and the entry point (lines 284-285)

    [config] is [os.environ] after [load_dotenv]. *)
Definition startup (config : gmap string string) : M unit :=
  (if bool_decide (is_Some (config !! "NOTION_API_TOKEN")) then ret tt
   else
     open_url (JStr "https://www.notion.so/my-integrations");;
     emit (EvStderr "This tool requires a valid Notion API token...");;
     raise (SystemExit 1));;
  (if bool_decide (is_Some (config !! "DEEPL_API_TOKEN")) then ret tt
   else
     open_url (JStr "https://www.deepl.com/pro-api");;
     emit (EvStderr "This tool requires a DeepL API token...");;
     raise (SystemExit 1)).

Definition program `{External} (config : gmap string string) (fuel : nat)
    (from_lang to_lang url : string) (debug : bool) : M unit :=
  startup config;; main fuel from_lang to_lang url debug.

(** [c in s] for a character [c] *)
Fixpoint occurs (c : ascii) (s : string) : bool :=
  match s with
  | EmptyString => false
  | String a s' => Ascii.eqb a c || occurs c s'
  end.

(** [sep.join(l)] for a one-character separator *)
Fixpoint join (sep : ascii) (l : list string) : string :=
  match l with
  | [] => EmptyString
  | [x] => x
  | x :: rest => x +:+ String sep (join sep rest)
  end.

(** ** Translation requests

    The calls made to the translator, in order, and what one run
    contributes: its request and the decoded answer. *)
Definition translation_requests (tr : list event) : list (json * string * string) :=
  omap (λ e, match e with EvTranslate p f t => Some (p, f, t) | _ => None end) tr.

Definition plain_text_of (run : json) : option json :=
  match run with
  | JDict rd => rd !! "plain_text"
  | _ => None
  end.

Definition run_requests (from_lang to_lang : string) (run : json) : list event :=
  match plain_text_of run with
  | Some p => [EvTranslate p from_lang to_lang]
  | None => []
  end.

Definition run_answers `{External} (from_lang to_lang : string) (run : json)
  : list json :=
  match plain_text_of run with
  | Some p =>
      match translator_translate p from_lang to_lang with
      | Answer t => [t]
      | Failure _ => []
      end
  | None => []
  end.

Definition mention_run : json := JDict {[ "type" := JStr "mention" ]}.

Definition numeric_run : json := JDict {[ "plain_text" := JNum 3 ]}.

(** ** Fetched blocks

    [typed_block]: a JSON object with a "type"; [kept_block x]: what the
    loop body at depth 0 collects for such a block, if anything;
    [processed_block x]: what it leaves in the fetched document. *)
Definition typed_block (x : json) : bool :=
  match x with
  | JDict bd => bool_decide (is_Some (bd !! "type"))
  | _ => false
  end.

Definition kept_block (x : json) : option json :=
  match x with
  | JDict bd =>
      match bd !! "type" with
      | Some t => if is_str "unsupported" t then None else Some (JDict (stripped bd))
      | None => None
      end
  | _ => None
  end.

Definition processed_block (x : json) : json := default x (kept_block x).

(** The server's answers to the successive list calls on [block_id],
    starting with the cursor [cursor]: for each call its cursor and the
    blocks of the page it answers; the last page is the first whose
    has_more is false, and each further call uses the next_cursor of the
    answer before. *)
Inductive serves `{External} (block_id : json) :
    json → list (json * list json) → Prop :=
| serves_last cursor jd l more :
    notion_blocks_children_list block_id cursor 100 = Answer (JDict jd) →
    jd !! "results" = Some (JList l) →
    jd !! "has_more" = Some more →
    truthy more = false →
    serves block_id cursor [(cursor, l)]
| serves_more cursor jd l more next pages :
    notion_blocks_children_list block_id cursor 100 = Answer (JDict jd) →
    jd !! "results" = Some (JList l) →
    jd !! "has_more" = Some more →
    truthy more = true →
    jd !! "next_cursor" = Some next →
    serves block_id next pages →
    serves block_id cursor ((cursor, l) :: pages).

(** ** Network calls

    The events of a trace that are calls to Notion or to the translator,
    in call order. *)
Definition is_network (e : event) : bool :=
  match e with
  | EvPagesRetrieve _ | EvChildrenList _ _ _ | EvPagesCreate _
  | EvChildrenAppend _ _ | EvTranslate _ _ _ => true
  | EvStdout _ | EvStderr _ | EvOpenUrl _ => false
  end.

Definition network_calls (tr : list event) : list event :=
  omap (λ e, if is_network e then Some e else None) tr.

(** Every reference of [refs] is live in the store [h] and its value
    satisfies [K]. *)
Definition all_kept (K : json → Prop) (h : list json) (refs : list ref) : Prop :=
  Forall (λ r, ∃ x, heap_at h r = Some x ∧ K x) refs.

(** A server whose list endpoint always announces a further page. *)
Definition endless_services : External := {|
  str_upper := ascii_upper;
  to_prettified_json := λ _, "<json>";
  str_of_exn := λ _, "<exception>";
  str_of_json := λ j, match j with JStr s => s | _ => "<json>" end;
  translator_translate := λ text _ _, Answer text;
  notion_pages_retrieve := λ _, Answer hello_page;
  notion_blocks_children_list := λ _ _ _,
    Answer (JDict {[ "results" := JList [paragraph_block];
                     "has_more" := JBool true; "next_cursor" := JStr "next" ]});
  notion_pages_create := λ _, Answer (JDict {[ "id" := JStr "new" ]});
  notion_blocks_children_append := λ _ _, Answer JNull;
|}.

(** Services that fail: only the page abc123 can be retrieved, nothing
    can be listed or created, and the append endpoint accepts full
    batches of ten only. *)
Definition failing_services : External := {|
  str_upper := ascii_upper;
  to_prettified_json := λ _, "<json>";
  str_of_exn := λ _, "<exception>";
  str_of_json := λ j, match j with JStr s => s | _ => "<json>" end;
  translator_translate := λ _ _ _, Failure "quota exceeded";
  notion_pages_retrieve := λ page_id,
    if bool_decide (page_id = "abc123") then Answer hello_page
    else Failure "not found";
  notion_blocks_children_list := λ _ _ _, Failure "timeout";
  notion_pages_create := λ _, Failure "denied";
  notion_blocks_children_append := λ _ children,
    if length children =? 10 then Answer JNull else Failure "rejected";
|}.
(** * Properties *)

(** ** Paths and the store *)

Lemma json_at_app p q j : json_at (p ++ q) j = json_at p j ≫= json_at q.
Proof.
  revert j. induction p as [|s p IH]; intros j; simpl; [done|].
  destruct j, s; simpl; try done.
  - destruct (l !! i); simpl; auto.
  - destruct (d !! k); simpl; auto.
Qed.

Lemma json_update_eq p f j x :
  json_at p j = Some x →
  json_update p f j =
    Some (match f x with
          | inr x' => inr (json_put p x' j)
          | inl e => inl e
          end).
Proof.
  revert j. induction p as [|s p IH]; intros j Hat; simpl in *.
  - simplify_eq. by destruct (f x).
  - destruct j, s; simpl in *; try done.
    + destruct (l !! i) as [c|]; simpl in *; [|done].
      rewrite (IH _ Hat). by destruct (f x).
    + destruct (d !! k) as [c|]; simpl in *; [|done].
      rewrite (IH _ Hat). by destruct (f x).
Qed.

Lemma json_update_None p f j : json_at p j = None → json_update p f j = None.
Proof.
  revert j. induction p as [|s p IH]; intros j Hat; simpl in *; [done|].
  destruct j, s; simpl in *; try done.
  - destruct (l !! i) as [c|]; simpl in *; [|done]. by rewrite IH.
  - destruct (d !! k) as [c|]; simpl in *; [|done]. by rewrite IH.
Qed.

Lemma json_at_put p x x' j :
  json_at p j = Some x → json_at p (json_put p x' j) = Some x'.
Proof.
  revert j. induction p as [|s p IH]; intros j Hat; simpl in *; [done|].
  destruct j, s; simpl in *; try done.
  - destruct (l !! i) as [c|] eqn:E; simpl in *; [|done].
    rewrite list_lookup_insert_eq by eauto using lookup_lt_Some. simpl. eauto.
  - destruct (d !! k) as [c|] eqn:E; simpl in *; [|done].
    rewrite lookup_insert_eq. simpl. eauto.
Qed.

Lemma json_put_id p x j : json_at p j = Some x → json_put p x j = j.
Proof.
  revert j. induction p as [|s p IH]; intros j Hat; simpl in *; [congruence|].
  destruct j, s; simpl in *; try done.
  - destruct (l !! i) as [c|] eqn:E; simpl in *; [|done].
    rewrite (IH _ Hat). by rewrite list_insert_id.
  - destruct (d !! k) as [c|] eqn:E; simpl in *; [|done].
    rewrite (IH _ Hat). by rewrite insert_id.
Qed.

Lemma json_put_put p x1 x2 j :
  json_put p x2 (json_put p x1 j) = json_put p x2 j.
Proof.
  revert j. induction p as [|s p IH]; intros j; simpl in *; [done|].
  destruct j, s; simpl in *; try done.
  - destruct (l !! i) as [c|] eqn:E; simpl in *; [|by rewrite E].
    rewrite list_lookup_insert_eq by eauto using lookup_lt_Some.
    by rewrite list_insert_insert_eq, IH.
  - destruct (d !! k) as [c|] eqn:E; simpl in *; [|by rewrite E].
    by rewrite lookup_insert_eq, insert_insert_eq, IH.
Qed.

Lemma json_put_app p q y j x :
  json_at p j = Some x → json_put (p ++ q) y j = json_put p (json_put q y x) j.
Proof.
  revert j. induction p as [|s p IH]; intros j Hat; simpl in *; [congruence|].
  destruct j, s; simpl in *; try done.
  - destruct (l !! i) as [c|] eqn:E; simpl in *; [|done]. by rewrite (IH _ Hat).
  - destruct (d !! k) as [c|] eqn:E; simpl in *; [|done]. by rewrite (IH _ Hat).
Qed.

Lemma json_put_dict k p x d c :
  d !! k = Some c → json_put (Key k :: p) x (JDict d) = JDict (<[k := json_put p x c]> d).
Proof. intros E. simpl. by rewrite E. Qed.

Lemma json_put_list i p x l c :
  l !! i = Some c → json_put (Idx i :: p) x (JList l) = JList (<[i := json_put p x c]> l).
Proof. intros E. simpl. by rewrite E. Qed.

Lemma heap_at_child h r s : heap_at h (ref_child r s) = heap_at h r ≫= json_at [s].
Proof.
  unfold heap_at, ref_child. simpl. destruct (h !! ref_root r); simpl; [|done].
  apply json_at_app.
Qed.

Lemma heap_at_child_dict h r k d v :
  heap_at h r = Some (JDict d) → d !! k = Some v →
  heap_at h (ref_child r (Key k)) = Some v.
Proof. intros E Hk. rewrite heap_at_child, E. simpl. by rewrite Hk. Qed.

Lemma heap_at_child_list h r i l v :
  heap_at h r = Some (JList l) → l !! i = Some v →
  heap_at h (ref_child r (Idx i)) = Some v.
Proof. intros E Hi. rewrite heap_at_child, E. simpl. by rewrite Hi. Qed.

Lemma heap_at_app h h' r x : heap_at h r = Some x → heap_at (h ++ h') r = Some x.
Proof.
  unfold heap_at. destruct (h !! ref_root r) as [doc|] eqn:E; [|done].
  by rewrite (lookup_app_l_Some _ _ _ _ E).
Qed.

Lemma heap_at_alloc h j : heap_at (h ++ [j]) (Ref (length h) []) = Some j.
Proof. unfold heap_at. simpl. by rewrite list_lookup_middle. Qed.

Lemma heap_at_last h doc p : heap_at (h ++ [doc]) (Ref (length h) p) = json_at p doc.
Proof. unfold heap_at. simpl. by rewrite list_lookup_middle. Qed.

Lemma heap_at_valid h r x : heap_at h r = Some x → ref_root r < length h.
Proof.
  unfold heap_at. destruct (h !! ref_root r) eqn:E; [|done].
  intros _. eauto using lookup_lt_Some.
Qed.

Lemma heap_update_eq h r f x :
  heap_at h r = Some x →
  heap_update h r f =
    Some (match f x with
          | inr x' => inr (heap_put h r x')
          | inl e => inl e
          end).
Proof.
  unfold heap_at, heap_update, heap_put.
  destruct (h !! ref_root r) as [doc|]; simpl; [|done].
  intros Hat. rewrite (json_update_eq _ _ _ _ Hat). by destruct (f x).
Qed.

Lemma heap_update_None h r f : heap_at h r = None → heap_update h r f = None.
Proof.
  unfold heap_at, heap_update.
  destruct (h !! ref_root r) as [doc|]; simpl; [|done].
  intros Hat. by rewrite json_update_None.
Qed.

Lemma length_heap_put h r x : length (heap_put h r x) = length h.
Proof. unfold heap_put. destruct (h !! ref_root r); [apply length_insert|done]. Qed.

Lemma heap_put_lookup_ne h r x ρ :
  ρ ≠ ref_root r → heap_put h r x !! ρ = h !! ρ.
Proof.
  intros. unfold heap_put. destruct (h !! ref_root r); [|done].
  by apply list_lookup_insert_ne.
Qed.

Lemma heap_at_put h r x x' :
  heap_at h r = Some x → heap_at (heap_put h r x') r = Some x'.
Proof.
  unfold heap_at, heap_put.
  destruct (h !! ref_root r) as [doc|] eqn:E; simpl; [|done].
  intros Hat. rewrite list_lookup_insert_eq by eauto using lookup_lt_Some.
  simpl. eauto using json_at_put.
Qed.

Lemma heap_at_put_ne h r x r' :
  ref_root r' ≠ ref_root r → heap_at (heap_put h r x) r' = heap_at h r'.
Proof. intros. unfold heap_at. by rewrite heap_put_lookup_ne. Qed.

Lemma heap_put_id h r x : heap_at h r = Some x → heap_put h r x = h.
Proof.
  unfold heap_at, heap_put.
  destruct (h !! ref_root r) as [doc|] eqn:E; simpl; [|done].
  intros Hat. rewrite (json_put_id _ _ _ Hat). by apply list_insert_id.
Qed.

Lemma heap_put_put h r x1 x2 :
  heap_put (heap_put h r x1) r x2 = heap_put h r x2.
Proof.
  unfold heap_put. destruct (h !! ref_root r) as [doc|] eqn:E; [|by rewrite E].
  rewrite list_lookup_insert_eq by eauto using lookup_lt_Some.
  by rewrite list_insert_insert_eq, json_put_put.
Qed.

Lemma heap_put_child h r s v j :
  heap_at h r = Some j →
  heap_put h (ref_child r s) v = heap_put h r (json_put [s] v j).
Proof.
  unfold heap_at, heap_put, ref_child. simpl.
  destruct (h !! ref_root r) as [doc|] eqn:E; simpl; [|done].
  intros Hat. by rewrite (json_put_app _ _ _ _ _ Hat).
Qed.

Lemma heap_put_last h doc p x :
  heap_put (h ++ [doc]) (Ref (length h) p) x = h ++ [json_put p x doc].
Proof.
  unfold heap_put. simpl. rewrite list_lookup_middle by done.
  rewrite insert_app_r_alt by done. by rewrite Nat.sub_diag.
Qed.

(** ** Running the primitives

    Each primitive has an equation for the state it is run in; [run]
    rewrites the head of a sequence with such an equation, [stop] ends
    the sequence at a statement that raises. *)

Lemma bind_run {A B} (c : M A) (k : A → M B) w :
  (c ≫= k) w =
    match c w with
    | (Return a, w') => k a w'
    | (Raise e, w') => (Raise e, w')
    | (OutOfFuel, w') => (OutOfFuel, w')
    | (Dangling, w') => (Dangling, w')
    end.
Proof. reflexivity. Qed.

Lemma bind_assoc {A B C} (c : M A) (f : A → M B) (g : B → M C) w :
  ((c ≫= f) ≫= g) w = (c ≫= λ a, f a ≫= g) w.
Proof. rewrite !bind_run. by destruct (c w) as [[]]. Qed.

Lemma bind_Return {A B} (c : M A) (k : A → M B) w a w' :
  c w = (Return a, w') → (c ≫= k) w = k a w'.
Proof. intros E. by rewrite bind_run, E. Qed.

Lemma bind_Raise {A B} (c : M A) (k : A → M B) w e w' :
  c w = (Raise e, w') → (c ≫= k) w = (Raise e, w').
Proof. intros E. by rewrite bind_run, E. Qed.

Lemma bind_Return_inv {A B} (c : M A) (k : A → M B) w b w' :
  (c ≫= k) w = (Return b, w') →
  ∃ a w1, c w = (Return a, w1) ∧ k a w1 = (Return b, w').
Proof. rewrite bind_run. destruct (c w) as [[a|e| |] w1]; naive_solver. Qed.

Tactic Notation "run" uconstr(lem) :=
  rewrite ?bind_assoc; rewrite (bind_Return _ _ _ _ _ lem); cbv beta.

Tactic Notation "stop" uconstr(lem) :=
  rewrite ?bind_assoc; rewrite (bind_Raise _ _ _ _ _ lem).

Lemma ret_run {A} (a : A) w : ret a w = (Return a, w).
Proof. reflexivity. Qed.

Lemma raise_run {A} e w : raise (A:=A) e w = (Raise e, w).
Proof. reflexivity. Qed.

Lemma emit_run e h tr : emit e (World h tr) = (Return tt, World h (tr ++ [e])).
Proof. reflexivity. Qed.

Lemma alloc_run j h tr :
  alloc j (World h tr) = (Return (Ref (length h) []), World (h ++ [j]) tr).
Proof. reflexivity. Qed.

Lemma load_run r h tr x :
  heap_at h r = Some x → load r (World h tr) = (Return x, World h tr).
Proof. intros E. unfold load. simpl. by rewrite E. Qed.

Lemma mutate_run r f h tr x x' :
  heap_at h r = Some x → f x = inr x' →
  mutate r f (World h tr) = (Return tt, World (heap_put h r x') tr).
Proof.
  intros E Hf. unfold mutate. simpl. by rewrite (heap_update_eq _ _ _ _ E), Hf.
Qed.

Lemma mutate_Raise r f h tr x e :
  heap_at h r = Some x → f x = inl e →
  mutate r f (World h tr) = (Raise e, World h tr).
Proof.
  intros E Hf. unfold mutate. simpl. by rewrite (heap_update_eq _ _ _ _ E), Hf.
Qed.

Lemma setitem_run r k v h tr d :
  heap_at h r = Some (JDict d) →
  setitem r k v (World h tr) =
    (Return tt, World (heap_put h r (JDict (<[k := v]> d))) tr).
Proof. intros E. by apply (mutate_run _ _ _ _ _ _ E). Qed.

Lemma setitem_Raise r k v h tr x :
  heap_at h r = Some x → (∀ d, x ≠ JDict d) →
  setitem r k v (World h tr) = (Raise TypeError, World h tr).
Proof.
  intros E Hx. apply (mutate_Raise _ _ _ _ _ _ E).
  destruct x; naive_solver.
Qed.

Lemma pop_run r k h tr d :
  heap_at h r = Some (JDict d) →
  pop r k (World h tr) = (Return tt, World (heap_put h r (JDict (delete k d))) tr).
Proof. intros E. by apply (mutate_run _ _ _ _ _ _ E). Qed.

Lemma getitem_dict r k h tr d v :
  heap_at h r = Some (JDict d) → d !! k = Some v →
  getitem r (Key k) (World h tr) = (Return (ref_child r (Key k)), World h tr).
Proof.
  intros E Hk. unfold getitem.
  rewrite (bind_Return _ _ _ _ _ (load_run _ _ _ _ E)).
  rewrite bind_run. simpl. by rewrite Hk.
Qed.

Lemma getitem_list r i h tr l v :
  heap_at h r = Some (JList l) → l !! i = Some v →
  getitem r (Idx i) (World h tr) = (Return (ref_child r (Idx i)), World h tr).
Proof.
  intros E Hi. unfold getitem.
  rewrite (bind_Return _ _ _ _ _ (load_run _ _ _ _ E)).
  rewrite bind_run. simpl. by rewrite Hi.
Qed.

Lemma getitem_Raise r s h tr x e :
  heap_at h r = Some x → subscript x s = inl e →
  getitem r s (World h tr) = (Raise e, World h tr).
Proof.
  intros E Hs. unfold getitem.
  rewrite (bind_Return _ _ _ _ _ (load_run _ _ _ _ E)).
  rewrite bind_run. simpl. by rewrite Hs.
Qed.

Lemma has_key_dict k r h tr d :
  heap_at h r = Some (JDict d) →
  has_key k r (World h tr) =
    (Return (bool_decide (is_Some (d !! k))), World h tr).
Proof.
  intros E. unfold has_key.
  by rewrite (bind_Return _ _ _ _ _ (load_run _ _ _ _ E)).
Qed.

Lemma deep_copy_run r h tr x :
  heap_at h r = Some x →
  deep_copy r (World h tr) = (Return (Ref (length h) []), World (h ++ [x]) tr).
Proof.
  intros E. unfold deep_copy.
  by rewrite (bind_Return _ _ _ _ _ (load_run _ _ _ _ E)).
Qed.

Lemma mapM_load rs js h tr :
  Forall2 (λ r j, heap_at h r = Some j) rs js →
  mapM load rs (World h tr) = (Return js, World h tr).
Proof.
  induction 1 as [|r j rs js Hr _ IH]; simpl; [done|].
  run (load_run _ _ _ _ Hr). by run IH.
Qed.

Lemma mapM_alloc {A} (f : A → json) l h tr :
  mapM (λ a, alloc (f a)) l (World h tr) =
    (Return (map (λ i, Ref (length h + i) []) (seq 0 (length l))),
     World (h ++ map f l) tr).
Proof.
  revert h. induction l as [|a l IH]; intros h; simpl.
  - by rewrite app_nil_r.
  - run (alloc_run _ _ _). run (IH _). rewrite ret_run.
    rewrite <- app_assoc, Nat.add_0_r, length_app. simpl.
    rewrite <- fmap_S_seq, <- list_fmap_compose.
    do 3 f_equal. apply list_fmap_ext. intros; simpl. f_equal. lia.
Qed.

(** ** The language tables *)

(** C2 as stated fails: the destination table does not have 26 entries. *)
Lemma supported_to_langs_not_26 :
  ¬ (length supported_from_langs = 26 ∧ length supported_to_langs = 26).
Proof. intros [_ Hto]. vm_compute in Hto. discriminate. Qed.

(** C2, amended: the source allow-list holds exactly 26 distinct codes and
    the destination allow-list exactly 28; the destination list has the
    regional variants EN-GB, EN-US, PT-PT and PT-BR, none of which is in
    the source list, in place of the source's EN and PT. *)
Theorem supported_langs_counts :
  length supported_from_langs = 26 ∧ NoDup supported_from_langs ∧
  length supported_to_langs = 28 ∧ NoDup supported_to_langs ∧
  Forall (λ v, v ∈ supported_to_langs ∧ v ∉ supported_from_langs)
    ["EN-GB"; "EN-US"; "PT-PT"; "PT-BR"] ∧
  Forall (λ c, c ∈ supported_from_langs ∧ c ∉ supported_to_langs) ["EN"; "PT"].
Proof.
  repeat apply conj; [compute_done..| |];
    repeat apply Forall_cons; repeat apply conj; try apply Forall_nil;
    compute_done.
Qed.

(** ** The page id in the URL *)

Lemma split_nonempty sep s : split sep s ≠ [].
Proof.
  destruct s as [|c s]; simpl; [done|].
  destruct (Ascii.eqb c sep); [done|].
  by destruct (split sep s).
Qed.

Lemma split_app_sep sep p s :
  split sep (p +:+ String sep s) = (split sep p ++ split sep s)%list.
Proof.
  induction p as [|c p IH]; simpl.
  - by rewrite Ascii.eqb_refl.
  - destruct (Ascii.eqb c sep); [by rewrite IH|].
    rewrite IH. pose proof (split_nonempty sep p).
    by destruct (split sep p).
Qed.

Lemma last_item_split_app sep p s :
  last_item (split sep (p +:+ String sep s)) = last_item (split sep s).
Proof.
  unfold last_item. rewrite split_app_sep, last_app.
  pose proof (split_nonempty sep s) as Hne.
  destruct (last (split sep s)) eqn:E; [done|].
  by apply last_None in E.
Qed.

(** C9: a URL whose text after the last "/" is "My-Page-abc123" yields the
    content id "abc123". *)
Theorem content_id_of_My_Page url :
  url = "My-Page-abc123" ∨ (∃ prefix, url = prefix +:+ "/My-Page-abc123") →
  content_id_of url = inr "abc123".
Proof.
  intros [->|[prefix ->]]; [reflexivity|].
  unfold content_id_of.
  change (prefix +:+ "/My-Page-abc123")
    with (prefix +:+ String "/"%char "My-Page-abc123").
  by rewrite last_item_split_app.
Qed.

Lemma content_id_of_My_Page_witness :
  content_id_of "https://www.notion.so/workspace/My-Page-abc123" = inr "abc123".
Proof.
  apply (content_id_of_My_Page "https://www.notion.so/workspace/My-Page-abc123").
  right. by exists "https://www.notion.so/workspace".
Defined.

(** ** Language validation *)

Section Validation.
Context `{External}.

(** C8: when the uppercased source code is not in the source table, or the
    uppercased destination code is not in the destination table, [main]
    writes one error line to stderr and exits with status 1; the store is
    untouched and the only event is that line, so no network call was
    made. *)
Theorem main_rejects_unsupported_language fuel from_lang to_lang url debug w :
  str_upper from_lang ∉ supported_from_langs ∨
  str_upper to_lang ∉ supported_to_langs →
  ∃ code,
    main fuel from_lang to_lang url debug w =
      (Raise (SystemExit 1),
       World (heap w)
         (trace w ++
          [EvStderr ("ERROR: " +:+ str_upper code +:+
                     " is not a supported language code...")])).
Proof.
  intros Hbad. unfold main.
  destruct (decide (str_upper from_lang ∈ supported_from_langs)) as [Hf|Hf].
  - destruct Hbad as [Hbad|Hbad]; [done|].
    rewrite (bool_decide_eq_true_2 _ Hf), (bool_decide_eq_false_2 _ Hbad).
    by exists to_lang.
  - rewrite (bool_decide_eq_false_2 _ Hf). by exists from_lang.
Qed.

End Validation.

Lemma main_rejects_unsupported_language_witness :
  ∃ code,
    @main example_services 0 "en" "xx" "https://www.notion.so/My-Page-abc123"
      false empty_world =
      (Raise (SystemExit 1),
       World []
         [EvStderr ("ERROR: " +:+ ascii_upper code +:+
                    " is not a supported language code...")]).
Proof.
  apply (@main_rejects_unsupported_language example_services 0 "en" "xx"
           "https://www.notion.so/My-Page-abc123" false empty_world).
  right. compute_done.
Defined.

(** ** Stripping the server-managed keys *)

Section Stripping.
Context `{External}.

Lemma mapM_pop obj keys d h tr :
  heap_at h obj = Some (JDict d) →
  mapM (pop obj) keys (World h tr) =
    (Return (map (λ _, tt) keys),
     World (heap_put h obj (JDict (foldl (λ m k, delete k m) d keys))) tr).
Proof.
  revert d h. induction keys as [|k keys IH]; intros d h E; simpl.
  - by rewrite (heap_put_id _ _ _ E).
  - rewrite (bind_Return _ _ _ _ _ (pop_run _ k _ _ _ E)).
    simpl. rewrite bind_run, (IH (delete k d)) by eauto using heap_at_put.
    by rewrite heap_put_put.
Qed.

Lemma remove_unnecessary_properties_run obj d h tr :
  heap_at h obj = Some (JDict d) →
  remove_unnecessary_properties obj (World h tr) =
    (Return tt, World (heap_put h obj (JDict (stripped d))) tr).
Proof.
  intros E. unfold remove_unnecessary_properties.
  by rewrite (bind_Return _ _ _ _ _ (mapM_pop _ _ _ _ _ E)).
Qed.

Lemma stripped_removed d k : k ∈ keys_to_remove → stripped d !! k = None.
Proof.
  intros Hk. unfold stripped. simpl. rewrite !lookup_delete.
  unfold keys_to_remove in Hk.
  repeat (apply elem_of_cons in Hk as [->|Hk]; [by repeat case_decide|]).
  by apply elem_of_nil in Hk.
Qed.

Lemma stripped_kept d k : k ∉ keys_to_remove → stripped d !! k = d !! k.
Proof.
  intros Hk. unfold stripped. simpl. rewrite !lookup_delete.
  repeat (case_decide as E; [exfalso; apply Hk; subst k; compute_done|clear E]).
  done.
Qed.

(** C5: after [remove_unnecessary_properties] on a JSON object, none of
    id, created_time, last_edited_time, created_by, last_edited_by is a
    key of the object; every other key has the value it had, and nothing
    is printed or sent. *)
Theorem remove_unnecessary_properties_strips w obj d :
  heap_at (heap w) obj = Some (JDict d) →
  ∃ w' d',
    remove_unnecessary_properties obj w = (Return tt, w') ∧
    heap_at (heap w') obj = Some (JDict d') ∧
    trace w' = trace w ∧
    d' !! "id" = None ∧
    d' !! "created_time" = None ∧
    d' !! "last_edited_time" = None ∧
    d' !! "created_by" = None ∧
    d' !! "last_edited_by" = None ∧
    (∀ k, k ≠ "id" → k ≠ "created_time" → k ≠ "last_edited_time" →
          k ≠ "created_by" → k ≠ "last_edited_by" →
          d' !! k = d !! k).
Proof.
  intros E. destruct w as [h tr]. simpl in E.
  eexists _, (stripped d). split; [by apply remove_unnecessary_properties_run|].
  simpl. split; [eauto using heap_at_put|]. split; [done|].
  split_and!; try (apply stripped_removed; compute_done).
  intros k H1 H2 H3 H4 H5. apply stripped_kept. unfold keys_to_remove.
  rewrite !elem_of_cons, elem_of_nil.
  by intros [->|[->|[->|[->|[->|[]]]]]].
Qed.

End Stripping.

Lemma remove_unnecessary_properties_strips_witness :
  ∃ w' d',
    @remove_unnecessary_properties (Ref 0 []) (World [paragraph_block] []) =
      (Return tt, w') ∧
    heap_at (heap w') (Ref 0 []) = Some (JDict d') ∧
    trace w' = [] ∧
    d' !! "id" = None ∧
    d' !! "created_time" = None ∧
    d' !! "last_edited_time" = None ∧
    d' !! "created_by" = None ∧
    d' !! "last_edited_by" = None ∧
    (∀ k, k ≠ "id" → k ≠ "created_time" → k ≠ "last_edited_time" →
          k ≠ "created_by" → k ≠ "last_edited_by" →
          d' !! k =
          ({[ "id" := JStr "b2"; "type" := JStr "paragraph";
              "has_children" := JBool false; "created_time" := JStr "today" ]}
             : gmap string json) !! k).
Proof.
  apply (remove_unnecessary_properties_strips (World [paragraph_block] [])
           (Ref 0 [])).
  reflexivity.
Defined.

(** ** Translating the runs of a rich-text array *)

Section Translation.
Context `{External}.

Lemma translate_run_spec each from_lang to_lang h tr run :
  heap_at h each = Some run →
  translatable from_lang to_lang run = true →
  ∃ h' tr',
    translate_run each from_lang to_lang (World h tr) =
      (Return tt,
       World (heap_put (h ++ h') each (translate_value from_lang to_lang run)) tr').
Proof.
  intros E Hrun. destruct run as [| | | | |rd]; try done.
  unfold translate_run, translatable, translate_value in *.
  run (has_key_dict "plain_text" _ _ _ _ E).
  destruct (rd !! "plain_text") as [p|] eqn:Hp.
  - rewrite bool_decide_eq_true_2 by eauto.
    run (getitem_dict _ _ _ _ _ _ E Hp).
    run (load_run _ _ _ _ (heap_at_child_dict _ _ _ _ _ E Hp)).
    run (emit_run _ _ _).
    destruct (translator_translate p from_lang to_lang) as [t|]; [|done].
    unfold answer. run (alloc_run _ _ _).
    run (load_run _ _ _ _ (heap_at_last h t [])).
    pose proof (heap_at_app _ [t] _ _ E) as E1.
    run (setitem_run _ _ _ _ _ _ E1).
    pose proof (heap_at_put _ _ _ (JDict (<["plain_text" := t]> rd)) E1) as E2.
    run (has_key_dict "text" _ _ _ _ E2).
    rewrite lookup_insert_ne by done.
    exists [t]. unfold translated_run.
    destruct (rd !! "text") as [x|] eqn:Hx.
    + destruct x as [| | | | |td]; try done.
      rewrite bool_decide_eq_true_2 by eauto.
      run (getitem_dict _ "plain_text" _ _ _ _ E2 (lookup_insert_eq _ _ _)).
      run (load_run _ _ _ _
             (heap_at_child_dict _ _ "plain_text" _ _ E2 (lookup_insert_eq _ _ _))).
      assert (<["plain_text" := t]> rd !! "text" = Some (JDict td)) as Hx'.
      { by rewrite lookup_insert_ne. }
      run (getitem_dict _ _ _ _ _ _ E2 Hx').
      rewrite (setitem_run _ _ _ _ _ _ (heap_at_child_dict _ _ _ _ _ E2 Hx')).
      rewrite (heap_put_child _ _ _ _ _ E2), (json_put_dict _ _ _ _ _ Hx').
      simpl json_put. rewrite heap_put_put. eauto.
    + rewrite bool_decide_eq_false_2 by (by intros [??]). eauto.
  - rewrite bool_decide_eq_false_2 by (by intros [??]).
    exists [], tr. by rewrite app_nil_r, (heap_put_id _ _ _ E).
Qed.

Lemma translate_runs_spec arr from_lang to_lang k :
  ∀ i l h tr,
    heap_at h arr = Some (JList l) →
    i + k = length l →
    forallb (translatable from_lang to_lang) (drop i l) = true →
    ∃ h' tr' us,
      mapM (λ each, translate_run each from_lang to_lang)
        (map (λ j, ref_child arr (Idx j)) (seq i k)) (World h tr) =
        (Return us, World h' tr') ∧
      heap_at h' arr =
        Some (JList (take i l ++ map (translate_value from_lang to_lang) (drop i l))).
Proof.
  induction k as [|k IH]; intros i l h tr E Hlen Hall.
  - exists h, tr, []. split; [done|].
    rewrite drop_ge, take_ge, app_nil_r by lia. done.
  - destruct (lookup_lt_is_Some_2 l i) as [x Hx]; [lia|].
    rewrite (drop_S _ _ _ Hx) in Hall |- *. simpl in Hall.
    apply andb_true_iff in Hall as [Hrun Hall].
    destruct (translate_run_spec _ from_lang to_lang h tr x
                (heap_at_child_list _ _ _ _ _ E Hx) Hrun) as (h0 & tr0 & Hstep).
    cbn [seq map mapM]. run Hstep.
    pose proof (heap_at_app _ h0 _ _ E) as E0.
    rewrite (heap_put_child _ _ _ _ _ E0), (json_put_list _ _ _ _ _ Hx).
    simpl json_put.
    set (x' := translate_value from_lang to_lang x).
    destruct (IH (S i) (<[i := x']> l) _ tr0 (heap_at_put _ _ _ _ E0))
      as (h' & tr' & us & Hrest & E').
    { rewrite length_insert. lia. }
    { by rewrite drop_insert_lt by lia. }
    run Hrest. exists h', tr', (() :: us). split; [done|].
    rewrite E'. do 2 f_equal.
    rewrite drop_insert_lt by lia.
    rewrite (take_S_r _ _ x') by (apply list_lookup_insert_eq; lia).
    rewrite take_insert_ge by done. by rewrite <- app_assoc.
Qed.

(** C4: on an array of runs the loop body runs through on (see
    [translatable]), [translate_text] returns, and every run that had a
    plain text [p] now has as plain_text the service's answer for [p]; if
    the run had a text.content field, that field holds the same answer. *)
Theorem translate_text_translates w rich_text_array from_lang to_lang runs :
  heap_at (heap w) rich_text_array = Some (JList runs) →
  forallb (translatable from_lang to_lang) runs = true →
  ∃ w' runs',
    translate_text rich_text_array from_lang to_lang w = (Return tt, w') ∧
    heap_at (heap w') rich_text_array = Some (JList runs') ∧
    length runs' = length runs ∧
    ∀ i rd p,
      runs !! i = Some (JDict rd) →
      rd !! "plain_text" = Some p →
      ∃ t rd',
        translator_translate p from_lang to_lang = Answer t ∧
        runs' !! i = Some (JDict rd') ∧
        rd' !! "plain_text" = Some t ∧
        ∀ td c,
          rd !! "text" = Some (JDict td) →
          td !! "content" = Some c →
          ∃ td', rd' !! "text" = Some (JDict td') ∧ td' !! "content" = Some t.
Proof.
  destruct w as [h tr]. simpl. intros E Hall.
  destruct (translate_runs_spec rich_text_array from_lang to_lang (length runs)
              0 runs h tr E eq_refl Hall) as (h' & tr' & us & Hrun & E').
  rewrite take_0, drop_0 in E'. simpl in E'.
  exists (World h' tr'), (map (translate_value from_lang to_lang) runs).
  split_and!; [|done|by rewrite length_map|].
  - unfold translate_text, iterate.
    run (load_run _ _ _ _ E). run (ret_run _ _). by run Hrun.
  - intros i rd p Hi Hp. rewrite list_lookup_fmap, Hi. simpl.
    rewrite Hp.
    assert (translatable from_lang to_lang (JDict rd) = true) as Hrd.
    { rewrite forallb_forall in Hall. apply Hall.
      apply list_elem_of_In. by eapply list_elem_of_lookup_2. }
    unfold translatable in Hrd. rewrite Hp in Hrd.
    destruct (translator_translate p from_lang to_lang) as [t|]; [|done].
    exists t, (translated_run t rd). split_and!; [done..| |].
    + unfold translated_run.
      destruct (rd !! "text") as [[| | | | |td]|]; try done;
        rewrite ?(lookup_insert_ne _ "text") by done; by rewrite lookup_insert_eq.
    + intros td c Htd _. unfold translated_run. rewrite Htd.
      rewrite lookup_insert_eq. eexists. split; [done|]. by rewrite lookup_insert_eq.
Qed.

End Translation.

Lemma translate_text_translates_witness :
  ∃ w' runs',
    @translate_text example_services (Ref 0 []) "EN" "FR"
      (World [JList [hello_run]] []) = (Return tt, w') ∧
    heap_at (heap w') (Ref 0 []) = Some (JList runs') ∧
    length runs' = length [hello_run] ∧
    ∀ i rd p,
      [hello_run] !! i = Some (JDict rd) →
      rd !! "plain_text" = Some p →
      ∃ t rd',
        @translator_translate example_services p "EN" "FR" = Answer t ∧
        runs' !! i = Some (JDict rd') ∧
        rd' !! "plain_text" = Some t ∧
        ∀ td c,
          rd !! "text" = Some (JDict td) →
          td !! "content" = Some c →
          ∃ td', rd' !! "text" = Some (JDict td') ∧ td' !! "content" = Some t.
Proof.
  apply (@translate_text_translates example_services
           (World [JList [hello_run]] []) (Ref 0 []) "EN" "FR" [hello_run]);
    reflexivity.
Defined.

(** ** Fetching blocks at nesting depth 1 *)

Section Fetch.
Context `{External}.

Lemma block_step_depth1 acc b h tr x acc' w' :
  heap_at h b = Some x →
  block_step 1 acc b (World h tr) = (Return acc', w') →
  ∃ x',
    w' = World (heap_put h b x') tr ∧
    (is_column_list x' = true → children_cleared x' = true) ∧
    (acc' = acc ∨ acc' = acc ++ [b] ∧ is_column_list x' = false).
Proof.
  intros E. unfold block_step.
  change (1 >=? 2)%Z with false. change (1 =? 1)%Z with true.
  unfold when. cbv iota. run (ret_run _ _).
  destruct (subscript x (Key "type")) as [e|t] eqn:Ht.
  { stop (getitem_Raise _ _ _ _ _ _ E Ht). done. }
  destruct x as [| | | | |bd]; try done. simpl in Ht.
  destruct (bd !! "type") as [t'|] eqn:Ht'; simplify_eq.
  run (getitem_dict _ _ _ _ _ _ E Ht').
  run (load_run _ _ _ _ (heap_at_child_dict _ _ _ _ _ E Ht')).
  run (ret_run _ _).
  destruct (is_str "column_list" t) eqn:Hcl.
  - destruct (bd !! "column_list") as [cl|] eqn:Hcol.
    2:{ stop (getitem_Raise _ (Key "column_list") _ _ _ _ E
                ltac:(by simpl; rewrite Hcol)). done. }
    run (getitem_dict _ _ _ _ _ _ E Hcol).
    pose proof (heap_at_child_dict _ _ _ _ _ E Hcol) as Ecl.
    assert ((∃ cld, cl = JDict cld) ∨ ∀ d, cl ≠ JDict d) as [[cld ->]|Hnd]
      by (destruct cl; eauto).
    2:{ stop (setitem_Raise _ _ _ _ _ _ Ecl Hnd). done. }
    run (setitem_run _ _ _ _ _ _ Ecl). rewrite ret_run. intros [= <- <-].
    rewrite (heap_put_child _ _ _ _ _ E), (json_put_dict _ _ _ _ _ Hcol).
    simpl json_put. eexists. split; [done|]. split; [|by left].
    intros _. simpl. by rewrite lookup_insert_eq, lookup_insert_eq.
  - run (getitem_dict _ _ _ _ _ _ E Ht').
    run (load_run _ _ _ _ (heap_at_child_dict _ _ _ _ _ E Ht')).
    destruct (is_str "unsupported" t).
    + rewrite ret_run. intros [= <- <-]. exists (JDict bd).
      rewrite (heap_put_id _ _ _ E). split; [done|]. split; [|by left].
      simpl. by rewrite Ht', Hcl.
    + run (remove_unnecessary_properties_run _ _ _ _ E).
      rewrite ret_run. intros [= <- <-]. eexists. split; [done|].
      assert (is_column_list (JDict (stripped bd)) = false) as Hkept.
      { simpl. rewrite stripped_kept by compute_done. by rewrite Ht'. }
      split; [by rewrite Hkept|by right].
Qed.

Lemma block_step_depth1_dict acc b h tr x acc' w' :
  heap_at h b = Some x →
  block_step 1 acc b (World h tr) = (Return acc', w') →
  ∃ bd, x = JDict bd.
Proof.
  intros E. unfold block_step.
  change (1 >=? 2)%Z with false. change (1 =? 1)%Z with true.
  unfold when. cbv iota. run (ret_run _ _).
  destruct (subscript x (Key "type")) as [e|t] eqn:Ht.
  { stop (getitem_Raise _ _ _ _ _ _ E Ht). done. }
  destruct x; try done. eauto.
Qed.

Lemma block_steps_depth1 results k :
  ∀ i l h tr acc acc' w',
    heap_at h results = Some (JList l) →
    i + k = length l →
    foldM (block_step 1) acc
      (map (λ j, ref_child results (Idx j)) (seq i k)) (World h tr) =
      (Return acc', w') →
    ∃ l' new,
      w' = World (heap_put h results (JList l')) tr ∧
      length l' = length l ∧
      take i l' = take i l ∧
      Forall (λ x, is_column_list x = true → children_cleared x = true)
        (drop i l') ∧
      acc' = acc ++ new ∧
      Forall (λ r, ∃ j x, r = ref_child results (Idx j) ∧
                          l' !! j = Some x ∧ is_column_list x = false) new.
Proof.
  induction k as [|k IH]; intros i l h tr acc acc' w' E Hlen Hrun.
  - simpl in Hrun. rewrite ret_run in Hrun. simplify_eq.
    exists l, []. rewrite (heap_put_id _ _ _ E), app_nil_r, drop_ge by lia.
    by split_and!.
  - cbn [seq map foldM] in Hrun.
    apply bind_Return_inv in Hrun as (acc1 & w1 & Hstep & Hrest).
    destruct (lookup_lt_is_Some_2 l i) as [x Hx]; [lia|].
    pose proof (heap_at_child_list _ _ _ _ _ E Hx) as Eb.
    destruct (block_step_depth1 _ _ _ _ _ _ _ Eb Hstep) as (x' & -> & Hx' & Hacc1).
    rewrite (heap_put_child _ _ _ _ _ E), (json_put_list _ _ _ _ _ Hx) in Hrest.
    simpl json_put in Hrest.
    destruct (IH (S i) (<[i := x']> l) _ tr acc1 acc' w'
                (heap_at_put _ _ _ _ E)) as (l' & new & -> & Hl' & Htake & Hdrop & -> & Hnew);
      [rewrite length_insert; lia|done|].
    rewrite length_insert in Hl'.
    assert (l' !! i = Some x') as Hi.
    { rewrite <- (lookup_take_lt l' (S i) i), Htake by lia.
      rewrite lookup_take_lt by lia. apply list_lookup_insert_eq. lia. }
    assert (take i l' = take i l) as Htake'.
    { transitivity (take i (take (S i) l')).
      - rewrite take_take. f_equal. lia.
      - rewrite Htake, take_take, Nat.min_l by lia. by apply take_insert_ge. }
    assert (Forall (λ x, is_column_list x = true → children_cleared x = true)
              (drop i l')) as Hdrop'.
    { rewrite (drop_S _ _ _ Hi). by constructor. }
    rewrite heap_put_put.
    destruct Hacc1 as [->|[-> Hkept]].
    + exists l', new. by split_and!.
    + exists l', (ref_child results (Idx i) :: new).
      split_and!; try done; [by rewrite <- app_assoc|].
      constructor; [|done]. by exists i, x'.
Qed.

(** A loop over the keys of a dict or the characters of a string stops
    at its first item, which is a string and has no "type". *)
Lemma block_steps_on_strings {A} (f : A → string) l acc h tr acc' w' :
  foldM (block_step 1) acc
    (map (λ i, Ref (length h + i) []) (seq 0 (length l)))
    (World (h ++ map (λ a, JStr (f a)) l) tr) = (Return acc', w') →
  l = [] ∧ acc' = acc ∧ w' = World h tr.
Proof.
  destruct l as [|a l]; simpl.
  - rewrite ret_run, app_nil_r. naive_solver.
  - intros (acc1 & w1 & Hstep & _)%bind_Return_inv.
    assert (heap_at (h ++ JStr (f a) :: map (λ a, JStr (f a)) l)
              (Ref (length h + 0) []) = Some (JStr (f a))) as E.
    { rewrite Nat.add_0_r. unfold heap_at. simpl. by rewrite list_lookup_middle. }
    by destruct (block_step_depth1_dict _ _ _ _ _ _ _ E Hstep).
Qed.

Lemma columns_cleared_page n0 h jd :
  columns_cleared n0 h →
  (∀ l, jd !! "results" = Some (JList l) →
        Forall (λ x, is_column_list x = true → children_cleared x = true) l) →
  columns_cleared n0 (h ++ [JDict jd]).
Proof.
  intros Hh Hjd ρ i x Hρ Hat Hcl.
  destruct (decide (ρ < length h)) as [Hlt|Hge].
  - apply (Hh ρ i x Hρ); [|done]. unfold heap_at in *. simpl in *.
    by rewrite lookup_app_l in Hat.
  - unfold heap_at in Hat. simpl in Hat.
    destruct (decide (ρ = length h)) as [->|Hne].
    + rewrite list_lookup_middle in Hat by done. simpl in Hat.
      destruct (jd !! "results") as [[| | | |l|]|] eqn:Hres; try done.
      simpl in Hat. destruct (l !! i) as [y|] eqn:Hi; simplify_eq/=.
      specialize (Hjd l eq_refl). rewrite Forall_lookup in Hjd. eauto.
    + rewrite lookup_ge_None_2 in Hat; [done|]. rewrite length_app. simpl. lia.
Qed.

Lemma no_column_list_app h h' refs :
  no_column_list h refs → no_column_list (h ++ h') refs.
Proof.
  intros Hrefs. eapply Forall_impl; [exact Hrefs|].
  intros r (x & Hx & Hcl). eauto using heap_at_app.
Qed.

Lemma fetch_loop_depth1 n0 block_id debug fuel :
  ∀ cursor acc h tr refs w',
    columns_cleared n0 h →
    no_column_list h acc →
    fetch_loop fuel block_id 1 debug cursor acc (World h tr) = (Return refs, w') →
    columns_cleared n0 (heap w') ∧ no_column_list (heap w') refs.
Proof.
  induction fuel as [|fuel IH]; intros cursor acc h tr refs w' Hheap Hacc; [done|].
  cbn [fetch_loop]. run (emit_run _ _ _).
  destruct (notion_blocks_children_list block_id cursor 100) as [j|msg].
  2:{ unfold answer. stop (raise_run _ _). done. }
  unfold answer. run (alloc_run _ _ _).
  set (blocks := Ref (length h) []).
  pose proof (heap_at_last h j []) as Eb. simpl in Eb. fold blocks in Eb.
  destruct (subscript j (Key "results")) as [e|rv] eqn:Hres.
  { destruct debug; unfold when.
    - stop (getitem_Raise _ _ _ _ _ _ Eb Hres). done.
    - run (ret_run _ _). run (emit_run _ _ _).
      stop (getitem_Raise _ _ _ _ _ _ Eb Hres). done. }
  destruct j as [| | | | |jd]; try done. simpl in Hres.
  destruct (jd !! "results") as [rv'|] eqn:Hres'; simplify_eq.
  pose proof (heap_at_child_dict _ _ _ _ _ Eb Hres') as Er.
  lazymatch goal with
  | |- context [when debug ?c] =>
      assert (∃ tr1,
        when debug c
          (World (h ++ [JDict jd]) (tr ++ [EvChildrenList block_id cursor 100])) =
          (Return tt, World (h ++ [JDict jd]) tr1)) as [tr1 Hdebug]
  end.
  { destruct debug; unfold when; [|by eexists]. eexists.
    run (getitem_dict _ _ _ _ _ _ Eb Hres'). run (load_run _ _ _ _ Er).
    apply emit_run. }
  run Hdebug. run (emit_run _ _ _). clear Hdebug.
  run (getitem_dict _ _ _ _ _ _ Eb Hres').
  (* what follows the [for] loop, from any state the loop may leave *)
  lazymatch goal with
  | |- (_ ≫= λ items, _ ≫= ?rest) _ = _ → _ =>
      assert (∀ jd2 tr2 acc2,
        jd2 !! "has_more" = jd !! "has_more" →
        jd2 !! "next_cursor" = jd !! "next_cursor" →
        columns_cleared n0 (h ++ [JDict jd2]) →
        no_column_list (h ++ [JDict jd2]) acc2 →
        rest acc2 (World (h ++ [JDict jd2]) tr2) = (Return refs, w') →
        columns_cleared n0 (heap w') ∧ no_column_list (heap w') refs) as Htail
  end.
  { intros jd2 tr2 acc2 Hmore Hnext Hheap2 Hacc2.
    pose proof (heap_at_last h (JDict jd2) []) as Eb2. simpl in Eb2.
    fold blocks in Eb2.
    destruct (jd2 !! "has_more") as [more|] eqn:Hm.
    2:{ stop (getitem_Raise _ (Key "has_more") _ _ _ _ Eb2
                ltac:(by simpl; rewrite Hm)). done. }
    run (getitem_dict _ _ _ _ _ _ Eb2 Hm).
    run (load_run _ _ _ _ (heap_at_child_dict _ _ _ _ _ Eb2 Hm)).
    destruct (truthy more).
    - destruct (jd2 !! "next_cursor") as [next|] eqn:Hn.
      2:{ stop (getitem_Raise _ (Key "next_cursor") _ _ _ _ Eb2
                  ltac:(by simpl; rewrite Hn)). done. }
      run (getitem_dict _ _ _ _ _ _ Eb2 Hn).
      run (load_run _ _ _ _ (heap_at_child_dict _ _ _ _ _ Eb2 Hn)).
      by apply IH.
    - rewrite ret_run. by intros [= <- <-]. }
  unfold iterate. run (load_run _ _ _ _ Er).
  destruct rv as [| | |s|l|d]; try (stop (raise_run _ _); done).
  - run (mapM_alloc (λ c, JStr (String c EmptyString)) _ _ _).
    intros (acc1 & w1 & Hfold & Hrest)%bind_Return_inv.
    apply (block_steps_on_strings (λ c, String c EmptyString)) in Hfold
      as (_ & -> & ->).
    eapply Htail; [done..| | |done].
    + apply columns_cleared_page; [done|]. by intros l; rewrite Hres'.
    + by apply no_column_list_app.
  - run (ret_run _ _).
    intros (acc1 & w1 & Hfold & Hrest)%bind_Return_inv.
    apply (block_steps_depth1 _ _ 0 l _ _ _ _ _ Er eq_refl) in Hfold
      as (l' & new & -> & Hlen & _ & Hcleared & -> & Hnew).
    change (ref_child blocks (Key "results"))
      with (Ref (length h) [Key "results"]) in *.
    rewrite heap_put_last, (json_put_dict _ _ _ _ _ Hres') in Hrest.
    simpl json_put in Hrest.
    eapply Htail; [| | | |done].
    + by rewrite lookup_insert_ne.
    + by rewrite lookup_insert_ne.
    + apply columns_cleared_page; [done|].
      intros l0. rewrite lookup_insert_eq. by intros [= <-].
    + apply Forall_app. split; [by apply no_column_list_app|].
      eapply Forall_impl; [done|]. intros r (i & x & -> & Hi & Hx).
      exists x. split; [|done].
      rewrite heap_at_child, heap_at_last. simpl.
      by rewrite lookup_insert_eq; simpl; rewrite Hi.
  - run (mapM_alloc (λ kv : string * json, JStr kv.1) _ _ _).
    intros (acc1 & w1 & Hfold & Hrest)%bind_Return_inv.
    apply (block_steps_on_strings (λ kv : string * json, kv.1)) in Hfold
      as (_ & -> & ->).
    eapply Htail; [done..| | |done].
    + apply columns_cleared_page; [done|]. by intros l; rewrite Hres'.
    + by apply no_column_list_app.
Qed.

(** C1, amended: when [build_translated_blocks] returns at nesting depth
    1, every fetched block of type "column_list" has had its
    column_list.children replaced by the empty list in the fetched
    document, and it has been skipped: no block of the returned list is a
    column list. *)
Theorem build_translated_blocks_depth1 fuel block_id debug w refs w' :
  build_translated_blocks fuel block_id 1 debug w = (Return refs, w') →
  (∀ ρ i x,
     length (heap w) ≤ ρ →
     heap_at (heap w') (Ref ρ [Key "results"; Idx i]) = Some x →
     is_column_list x = true → children_cleared x = true) ∧
  (∀ r, r ∈ refs →
     ∃ x, heap_at (heap w') r = Some x ∧ is_column_list x = false).
Proof.
  destruct w as [h tr]. intros Hrun.
  destruct (fetch_loop_depth1 (length h) block_id debug fuel JNull [] h tr
              refs w') as [Hheap Hrefs]; [| |done|].
  - intros ρ i x Hρ Hat. unfold heap_at in Hat. simpl in Hat.
    by rewrite lookup_ge_None_2 in Hat.
  - constructor.
  - split; [done|]. intros r Hr. unfold no_column_list in Hrefs.
    rewrite Forall_forall in Hrefs. by apply Hrefs.
Qed.

End Fetch.

(** C1 as stated fails: at depth 1 the server's column-list block (the
    first of the two fetched blocks) gets its children cleared, but the
    returned list holds the second block only. *)
Lemma column_list_block_not_returned :
  ∃ refs w',
    @build_translated_blocks example_services 1 (JStr "abc123") 1 false
      empty_world = (Return refs, w') ∧
    (∃ x, heap_at (heap w') (Ref 0 [Key "results"; Idx 0]) = Some x ∧
          is_column_list x = true ∧ children_cleared x = true) ∧
    refs = [Ref 0 [Key "results"; Idx 1]] ∧
    Ref 0 [Key "results"; Idx 0] ∉ refs.
Proof.
  eexists _, _. split; [vm_compute; reflexivity|].
  split; [eexists; split; [vm_compute; reflexivity|by vm_compute]|].
  split; [done|]. by intros [=]%list_elem_of_singleton.
Qed.

Lemma build_translated_blocks_depth1_witness :
  let run :=
    @build_translated_blocks example_services 1 (JStr "abc123") 1 false
      empty_world in
  (∀ ρ i x,
     length (heap empty_world) ≤ ρ →
     heap_at (heap run.2) (Ref ρ [Key "results"; Idx i]) = Some x →
     is_column_list x = true → children_cleared x = true) ∧
  (∀ r, r ∈ [Ref 0 [Key "results"; Idx 1]] →
     ∃ x, heap_at (heap run.2) r = Some x ∧ is_column_list x = false).
Proof.
  intros run.
  apply (@build_translated_blocks_depth1 example_services 1 (JStr "abc123")
           false empty_world [Ref 0 [Key "results"; Idx 1]] run.2).
  vm_compute. reflexivity.
Defined.

(** ** Creating the translated page *)

Section Replication.
Context `{External}.

(** C3: for a page whose properties have no "title" key the placeholder
    run is built (it is the last object of the store after the call), and
    it reaches no submitted page: the call then raises KeyError on the
    copy's missing title (line 193) with the trace as it was, so no
    page-creation request is made at all. *)
Theorem create_new_page_without_title w original_page to_lang debug d idv props :
  heap_at (heap w) original_page = Some (JDict d) →
  d !! "id" = Some idv →
  d !! "properties" = Some (JDict props) →
  props !! "title" = None →
  create_new_page_for_translation original_page to_lang debug w =
    (Raise (KeyError (Key "title")),
     World (heap w ++
              [JDict (<["parent" := JDict {[ "page_id" := idv ]}]> d);
               JDict {[ "plain_text" := JStr "Translated page" ]}])
           (trace w)).
Proof.
  destruct w as [h tr]. simpl. intros E Hid Hprops Htitle.
  unfold create_new_page_for_translation.
  rewrite (bind_Return _ _ _ _ _ (deep_copy_run _ _ _ _ E)).
  pose proof (heap_at_app _ [JDict d] _ _ E) as E1.
  rewrite (bind_Return _ _ _ _ _ (getitem_dict _ _ _ _ _ _ E1 Hid)).
  rewrite (bind_Return _ _ _ _ _
             (load_run _ _ _ _ (heap_at_child_dict _ _ _ _ _ E1 Hid))).
  rewrite (bind_Return _ _ _ _ _ (setitem_run _ _ _ _ _ _ (heap_at_last h _ []))).
  rewrite heap_put_last. simpl json_put.
  set (copy := JDict (<["parent" := JDict {[ "page_id" := idv ]}]> d)).
  pose proof (heap_at_app _ [copy] _ _ E) as E2.
  rewrite (bind_Return _ _ _ _ _ (getitem_dict _ _ _ _ _ _ E2 Hprops)).
  rewrite (bind_Return _ _ _ _ _
             (has_key_dict "title" _ _ _ _ (heap_at_child_dict _ _ _ _ _ E2 Hprops))).
  rewrite Htitle, bool_decide_eq_false_2 by (by intros [??]).
  rewrite (bind_Return _ _ _ _ _ (alloc_run _ _ _)).
  assert (heap_at ((h ++ [copy]) ++ [JDict {[ "plain_text" := JStr "Translated page" ]}])
            (Ref (length h) []) = Some copy) as E3.
  { apply heap_at_app, heap_at_last. }
  assert (<["parent" := JDict {[ "page_id" := idv ]}]> d !! "properties"
          = Some (JDict props)) as Hprops'.
  { by rewrite lookup_insert_ne. }
  rewrite (bind_Return _ _ _ _ _ (getitem_dict _ _ _ _ _ _ E3 Hprops')).
  rewrite (bind_Raise _ _ _ _ _
             (getitem_Raise _ (Key "title") _ _ _ (KeyError (Key "title"))
                (heap_at_child_dict _ _ _ _ _ E3 Hprops')
                ltac:(by simpl; rewrite Htitle))).
  by rewrite <- app_assoc.
Qed.

Lemma create_new_page_titled h tr original_page to_lang debug
    d idv props td rd rest txt c p :
  heap_at h original_page = Some (JDict d) →
  d !! "id" = Some idv →
  d !! "properties" = Some (JDict props) →
  props !! "title" = Some (JDict td) →
  td !! "title" = Some (JList (JDict rd :: rest)) →
  rd !! "text" = Some (JDict txt) →
  txt !! "content" = Some (JStr c) →
  rd !! "plain_text" = Some (JStr p) →
  let request := new_page_request d idv props td rd rest txt c p to_lang in
  create_new_page_for_translation original_page to_lang debug (World h tr) =
    submit_new_page request debug (World (h ++ [request]) tr).
Proof.
  intros E Hid Hprops Htitle Htt Htext Hcontent Hplain request.
  unfold create_new_page_for_translation.
  run (deep_copy_run _ _ _ _ E).
  pose proof (heap_at_app _ [JDict d] _ _ E) as E1.
  run (getitem_dict _ _ _ _ _ _ E1 Hid).
  run (load_run _ _ _ _ (heap_at_child_dict _ _ _ _ _ E1 Hid)).
  run (setitem_run _ _ _ _ _ _ (heap_at_last h _ [])).
  rewrite heap_put_last. simpl json_put.
  set (d1 := <["parent" := JDict {[ "page_id" := idv ]}]> d).
  pose proof (heap_at_app _ [JDict d1] _ _ E) as O1.
  pose proof (heap_at_child_dict _ _ _ _ _ O1 Hprops) as O2.
  pose proof (heap_at_child_dict _ _ _ _ _ O2 Htitle) as O3.
  pose proof (heap_at_child_dict _ _ _ _ _ O3 Htt) as O4.
  pose proof (heap_at_child_list _ _ 0 _ _ O4 eq_refl) as O5.
  pose proof (heap_at_child_dict _ _ _ _ _ O5 Htext) as O6.
  pose proof (heap_at_child_dict _ _ _ _ _ O6 Hcontent) as O7.
  pose proof (heap_at_child_dict _ _ _ _ _ O5 Hplain) as O8.
  run (getitem_dict _ _ _ _ _ _ O1 Hprops).
  run (has_key_dict "title" _ _ _ _ O2).
  rewrite Htitle, bool_decide_eq_true_2 by eauto. cbv iota.
  rewrite !bind_assoc.
  run (getitem_dict _ _ _ _ _ _ O1 Hprops).
  run (getitem_dict _ _ _ _ _ _ O2 Htitle).
  run (getitem_dict _ _ _ _ _ _ O3 Htt).
  run (getitem_list _ 0 _ _ _ _ O4 eq_refl).
  set (original_title := ref_child _ (Idx 0)) in *.
  pose proof (heap_at_last h (JDict d1) []) as N1. simpl in N1.
  assert (d1 !! "properties" = Some (JDict props)) as Hprops'.
  { unfold d1. by rewrite lookup_insert_ne. }
  pose proof (heap_at_child_dict _ _ _ _ _ N1 Hprops') as N2.
  pose proof (heap_at_child_dict _ _ _ _ _ N2 Htitle) as N3.
  pose proof (heap_at_child_dict _ _ _ _ _ N3 Htt) as N4.
  pose proof (heap_at_child_list _ _ 0 _ _ N4 eq_refl) as N5.
  set (new_title := ref_child _ (Idx 0)) in N5 |- *.
  pose proof (heap_at_child_dict _ _ _ _ _ N5 Htext) as N6.
  run (getitem_dict _ _ _ _ _ _ N1 Hprops').
  run (getitem_dict _ _ _ _ _ _ N2 Htitle).
  run (getitem_dict _ _ _ _ _ _ N3 Htt).
  run (getitem_list _ 0 _ _ _ _ N4 eq_refl).
  run (getitem_dict _ _ _ _ _ _ O5 Htext).
  run (getitem_dict _ _ _ _ _ _ O6 Hcontent).
  run (load_run _ _ _ _ O7).
  rewrite bind_run. simpl lift. cbv beta iota. unfold mret, M_ret, ret at 1.
  run (getitem_dict _ _ _ _ _ _ N5 Htext).
  run (setitem_run _ _ _ _ _ _ N6).
  rewrite (heap_put_child _ _ _ _ _ N5), (json_put_dict _ _ _ _ _ Htext).
  simpl json_put.
  set (v1 := JDict (<["text" := _]> rd)).
  assert (ref_root original_title ≠ length h) as Hne.
  { apply heap_at_valid in E. simpl. lia. }
  rewrite <- (heap_at_put_ne _ new_title v1 original_title Hne) in O5.
  run (getitem_dict _ _ _ _ _ _ O5 Hplain).
  run (load_run _ _ _ _ (heap_at_child_dict _ _ _ _ _ O5 Hplain)).
  rewrite bind_run. simpl lift. cbv beta iota. unfold mret, M_ret, ret at 1.
  run (setitem_run _ _ _ _ _ _ (heap_at_put _ _ _ v1 N5)).
  rewrite heap_put_put.
  change new_title
    with (Ref (length h) [Key "properties"; Key "title"; Key "title"; Idx 0]).
  rewrite heap_put_last.
  rewrite (json_put_dict _ _ _ _ _ Hprops'), (json_put_dict _ _ _ _ _ Htitle),
    (json_put_dict _ _ _ _ _ Htt).
  simpl json_put.
  run (remove_unnecessary_properties_run _ _ _ _ (heap_at_last h _ [])).
  rewrite heap_put_last. simpl json_put.
  run (load_run _ _ _ _ (heap_at_last h _ [])).
  reflexivity.
Qed.

Lemma creation_requests_app tr1 tr2 :
  creation_requests (tr1 ++ tr2) = creation_requests tr1 ++ creation_requests tr2.
Proof. apply omap_app. Qed.

Lemma submit_new_page_requests d debug h tr :
  creation_requests (trace (submit_new_page (JDict d) debug (World h tr)).2) =
    creation_requests tr ++ [JDict d].
Proof.
  unfold submit_new_page, when, print.
  assert (∀ (c : M ref) w e,
            creation_requests (trace w) = e →
            (∀ w', trace (c w').2 = trace w' ∨
                   ∃ text, trace (c w').2 = trace w' ++ [EvStdout text]) →
            creation_requests (trace (c w).2) = e) as Hquiet.
  { intros c w e <- Hc. destruct (Hc w) as [->|[text ->]]; [done|].
    rewrite creation_requests_app. simpl. by rewrite app_nil_r. }
  set (k := λ new_page_creation : ref, _ : M ref).
  assert (∀ w,
            creation_requests
              (trace ((emit (EvPagesCreate (JDict d));;
                       answer (notion_pages_create (JDict d)) ≫= k) w).2) =
            creation_requests (trace w) ++ [JDict d]) as Hsubmit.
  { intros [h' tr']. run (emit_run _ _ _).
    apply Hquiet; [simpl; by rewrite creation_requests_app|].
    intros [h'' tr'']. destruct (notion_pages_create (JDict d)) as [j|msg].
    - unfold answer. run (alloc_run _ _ _). unfold k.
      destruct debug.
      + run (load_run _ _ _ _ (heap_at_last h'' j [])).
        run (emit_run _ _ _). simpl. eauto.
      + run (ret_run _ _). simpl. eauto.
    - unfold answer. rewrite (bind_Raise _ _ _ _ _ (raise_run _ _)). simpl. eauto. }
  destruct debug.
  - run (emit_run _ _ _). run (ret_run _ _). rewrite Hsubmit. simpl.
    rewrite creation_requests_app. simpl. by rewrite app_nil_r.
  - run (ret_run _ _). run (ret_run _ _). by rewrite Hsubmit.
Qed.

(** C7: for a page whose first title run has text.content "Hello" and
    plain_text "Hello", and the destination language "FR", the call
    submits exactly one page-creation request, and the first title run of
    that request has text.content "Hello (FR)" and plain_text
    "Hello (FR)". *)
Theorem create_new_page_title_Hello_FR w original_page debug
    d idv props td rd rest txt :
  heap_at (heap w) original_page = Some (JDict d) →
  d !! "id" = Some idv →
  d !! "properties" = Some (JDict props) →
  props !! "title" = Some (JDict td) →
  td !! "title" = Some (JList (JDict rd :: rest)) →
  rd !! "text" = Some (JDict txt) →
  txt !! "content" = Some (JStr "Hello") →
  rd !! "plain_text" = Some (JStr "Hello") →
  ∃ request,
    creation_requests
      (trace (create_new_page_for_translation original_page "FR" debug w).2) =
      creation_requests (trace w) ++ [request] ∧
    json_at [Key "properties"; Key "title"; Key "title"; Idx 0;
             Key "text"; Key "content"] request = Some (JStr "Hello (FR)") ∧
    json_at [Key "properties"; Key "title"; Key "title"; Idx 0;
             Key "plain_text"] request = Some (JStr "Hello (FR)").
Proof.
  destruct w as [h tr]. simpl heap. simpl trace.
  intros E Hid Hprops Htitle Htt Htext Hcontent Hplain.
  rewrite (create_new_page_titled _ _ _ _ _ _ _ _ _ _ _ _ _ _
             E Hid Hprops Htitle Htt Htext Hcontent Hplain).
  exists (new_page_request d idv props td rd rest txt "Hello" "Hello" "FR").
  split; [apply submit_new_page_requests|].
  unfold new_page_request. simpl json_at.
  rewrite stripped_kept by compute_done.
  rewrite lookup_insert_eq. simpl. rewrite lookup_insert_eq. simpl.
  rewrite lookup_insert_eq. simpl.
  rewrite lookup_insert_eq, lookup_insert_ne, lookup_insert_eq by done. simpl.
  by rewrite lookup_insert_eq.
Qed.

End Replication.

Lemma create_new_page_without_title_witness :
  @create_new_page_for_translation example_services (Ref 0 []) "FR" false
    (World [untitled_page] []) =
    (Raise (KeyError (Key "title")),
     World ([untitled_page] ++
              [JDict (<["parent" := JDict {[ "page_id" := JStr "abc123" ]}]>
                        {[ "id" := JStr "abc123"; "properties" := JDict ∅ ]});
               JDict {[ "plain_text" := JStr "Translated page" ]}])
           []).
Proof.
  apply (@create_new_page_without_title example_services
           (World [untitled_page] []) (Ref 0 []) "FR" false
           {[ "id" := JStr "abc123"; "properties" := JDict ∅ ]}
           (JStr "abc123") ∅); reflexivity.
Defined.

Lemma create_new_page_title_Hello_FR_witness :
  ∃ request,
    creation_requests
      (trace (@create_new_page_for_translation example_services (Ref 0 []) "FR"
                false (World [hello_page] [])).2) = [] ++ [request] ∧
    json_at [Key "properties"; Key "title"; Key "title"; Idx 0;
             Key "text"; Key "content"] request = Some (JStr "Hello (FR)") ∧
    json_at [Key "properties"; Key "title"; Key "title"; Idx 0;
             Key "plain_text"] request = Some (JStr "Hello (FR)").
Proof.
  apply (@create_new_page_title_Hello_FR example_services
           (World [hello_page] []) (Ref 0 []) false
           {[ "id" := JStr "abc123"; "url" := JStr "https://www.notion.so/abc123";
              "properties" :=
                JDict {[ "title" := JDict {[ "title" := JList [hello_run] ]} ]} ]}
           (JStr "abc123")
           {[ "title" := JDict {[ "title" := JList [hello_run] ]} ]}
           {[ "title" := JList [hello_run] ]}
           {[ "text" := JDict {[ "content" := JStr "Hello" ]};
              "plain_text" := JStr "Hello" ]}
           []
           {[ "content" := JStr "Hello" ]}); reflexivity.
Defined.

(** ** Frame: the call works on a copy *)

Lemma safe_ret {A} n (Φ : A → Prop) a : Φ a → safe n Φ (ret a).
Proof. intros Ha w Hw. simpl. split_and!; [done..|]. by intros ? [= <-]. Qed.

Lemma safe_raise {A} n (Φ : A → Prop) e : safe n Φ (raise e).
Proof. intros w Hw. simpl. by split_and!. Qed.

Lemma safe_bind {A B} n (Φ : A → Prop) (Ψ : B → Prop) c k :
  safe n Φ c → (∀ a, Φ a → safe n Ψ (k a)) → safe n Ψ (c ≫= k).
Proof.
  intros Hc Hk w Hw. destruct (Hc w Hw) as (Ht & Hl & HΦ).
  rewrite bind_run. destruct (c w) as [[a|e| |] w1]; simpl in *; try done.
  destruct (Hk a (HΦ a eq_refl) w1 Hl) as (Ht' & Hl' & HΨ).
  split_and!; [congruence|done..].
Qed.

Lemma safe_weaken {A} n (Φ Ψ : A → Prop) c :
  safe n Φ c → (∀ a, Φ a → Ψ a) → safe n Ψ c.
Proof.
  intros Hc HΦΨ w Hw. destruct (Hc w Hw) as (Ht & Hl & HΦ). naive_solver.
Qed.

Lemma safe_lift {A} n (x : exn + A) : safe n (λ _, True) (lift x).
Proof. destruct x; [apply safe_raise|by apply safe_ret]. Qed.

Lemma safe_load n r : safe n (λ _, True) (load r).
Proof.
  intros w Hw. unfold load. by destruct (heap_at (heap w) r); simpl.
Qed.

Lemma safe_alloc n j : safe n (fresh n) (alloc j).
Proof.
  intros w Hw. simpl. rewrite length_app, take_app_le by done.
  split_and!; [done|lia|]. by intros ? [= <-].
Qed.

Lemma safe_emit n e : safe n (λ _, True) (emit e).
Proof. intros w Hw. by simpl. Qed.

Lemma safe_when n b c : safe n (λ _, True) c → safe n (λ _, True) (when b c).
Proof. destruct b; [done|]. intros _. by apply safe_ret. Qed.

Lemma safe_mutate n r f : fresh n r → safe n (λ _, True) (mutate r f).
Proof.
  intros Hr w Hw. unfold mutate, heap_update.
  destruct (heap w !! ref_root r ≫= json_update (ref_path r) f)
    as [[e|j]|]; simpl; [done| |done].
  rewrite length_insert, take_insert_ge by done. done.
Qed.

Lemma safe_getitem_fresh n r s : fresh n r → safe n (fresh n) (getitem r s).
Proof.
  intros Hr. unfold getitem.
  eapply safe_bind; [apply safe_load|]. intros j _.
  eapply safe_bind; [apply safe_lift|]. intros v _.
  destruct j; try by apply safe_ret. apply safe_alloc.
Qed.

Lemma safe_getitem n r s : safe n (λ _, True) (getitem r s).
Proof.
  unfold getitem.
  eapply safe_bind; [apply safe_load|]. intros j _.
  eapply safe_bind; [apply safe_lift|]. intros v _.
  destruct j; try by apply safe_ret.
  eapply safe_weaken; [apply safe_alloc|done].
Qed.

Lemma safe_has_key n k r : safe n (λ _, True) (has_key k r).
Proof.
  unfold has_key. eapply safe_bind; [apply safe_load|]. intros j _.
  apply safe_lift.
Qed.

Lemma safe_mapM {A B} n (f : A → M B) l :
  (∀ a, a ∈ l → safe n (λ _, True) (f a)) → safe n (λ _, True) (mapM f l).
Proof.
  induction l as [|a l IH]; intros Hf; simpl; [by apply safe_ret|].
  eapply safe_bind; [apply Hf; left|]. intros b _.
  eapply safe_bind; [apply IH; intros; apply Hf; by right|]. intros bs _.
  by apply safe_ret.
Qed.

Section Frame.
Context `{External}.

Lemma safe_answer n rp : safe n (fresh n) (answer rp).
Proof. destruct rp; [apply safe_alloc|apply safe_raise]. Qed.

Lemma safe_remove_unnecessary_properties n obj :
  fresh n obj → safe n (λ _, True) (remove_unnecessary_properties obj).
Proof.
  intros Hobj. unfold remove_unnecessary_properties.
  eapply safe_bind; [|intros; by apply safe_ret].
  apply safe_mapM. intros k _. by apply safe_mutate.
Qed.

Lemma safe_create_new_page n original_page to_lang debug :
  safe n (λ _, True) (create_new_page_for_translation original_page to_lang debug).
Proof.
  unfold create_new_page_for_translation, deep_copy.
  eapply safe_bind.
  { eapply safe_bind; [apply safe_load|]. intros; apply safe_alloc. }
  intros new_page Hnew.
  eapply safe_bind; [apply safe_getitem|]. intros id _.
  eapply safe_bind; [apply safe_load|]. intros idv _.
  eapply safe_bind; [by apply safe_mutate|]. intros _ _.
  eapply safe_bind; [apply safe_getitem|]. intros props _.
  eapply safe_bind; [apply safe_has_key|]. intros has_title _.
  eapply (safe_bind _ (λ _, True)).
  { destruct has_title.
    - eapply safe_bind; [apply safe_getitem|]. intros p _.
      eapply safe_bind; [apply safe_getitem|]. intros t _.
      eapply safe_bind; [apply safe_getitem|]. intros tt _.
      apply safe_getitem.
    - eapply safe_weaken; [apply safe_alloc|done]. }
  intros original_title _.
  eapply safe_bind; [by apply safe_getitem_fresh|]. intros np Hnp.
  eapply safe_bind; [by apply safe_getitem_fresh|]. intros nt Hnt.
  eapply safe_bind; [by apply safe_getitem_fresh|]. intros ntt Hntt.
  eapply safe_bind; [by apply safe_getitem_fresh|]. intros new_title Htitle.
  eapply safe_bind; [apply safe_getitem|]. intros ot _.
  eapply safe_bind; [apply safe_getitem|]. intros oc _.
  eapply safe_bind; [apply safe_load|]. intros content _.
  eapply safe_bind; [apply safe_lift|]. intros content' _.
  eapply safe_bind; [by apply safe_getitem_fresh|]. intros ntx Hntx.
  eapply safe_bind; [by apply safe_mutate|]. intros _ _.
  eapply safe_bind; [apply safe_getitem|]. intros op _.
  eapply safe_bind; [apply safe_load|]. intros plain _.
  eapply safe_bind; [apply safe_lift|]. intros plain' _.
  eapply safe_bind; [by apply safe_mutate|]. intros _ _.
  eapply safe_bind; [by apply safe_remove_unnecessary_properties|]. intros _ _.
  eapply safe_bind; [apply safe_load|]. intros request _.
  eapply safe_bind; [apply safe_when, safe_emit|]. intros _ _.
  eapply (safe_bind _ (λ _, True)).
  { destruct request; first [by apply safe_ret|apply safe_raise]. }
  intros _ _.
  eapply safe_bind; [apply safe_emit|]. intros _ _.
  eapply safe_bind; [apply safe_answer|]. intros new_page_creation _.
  eapply safe_bind; [|intros; by apply safe_ret].
  apply safe_when. eapply safe_bind; [apply safe_load|]. intros; apply safe_emit.
Qed.

(** C10: the call leaves every document that was in the store before it
    as it was; in particular the original page object reads the same
    before and after.  The parent reassignment, the title suffix and the
    key stripping go to documents added by the call. *)
Theorem create_new_page_keeps_original w original_page to_lang debug :
  let w' := (create_new_page_for_translation original_page to_lang debug w).2 in
  take (length (heap w)) (heap w') = heap w ∧
  heap_at (heap w') original_page = heap_at (heap w) original_page.
Proof.
  intros w'.
  destruct (safe_create_new_page (length (heap w)) original_page to_lang debug
              w (Nat.le_refl _)) as (Ht & Hl & _).
  fold w' in Ht, Hl. rewrite firstn_all in Ht. split; [done|].
  destruct (heap_at (heap w) original_page) as [x|] eqn:E.
  - unfold heap_at in *.
    destruct (heap w !! ref_root original_page) as [doc|] eqn:Edoc; [|done].
    assert (heap w' !! ref_root original_page = Some doc) as ->; [|done].
    rewrite <- Ht in Edoc. by apply lookup_take_Some in Edoc as [? _].
  - subst w'. unfold create_new_page_for_translation, deep_copy, load.
    rewrite !bind_run, E. done.
Qed.

End Frame.

(** ** The upload loop *)

Lemma appended_batches_app tr1 tr2 :
  appended_batches (tr1 ++ tr2) = appended_batches tr1 ++ appended_batches tr2.
Proof. apply omap_app. Qed.

(** [ceil_div n d] is the least number of batches of [d] that hold [n]. *)
Lemma ceil_div_spec n d k : 0 < d → ceil_div n d ≤ k ↔ n ≤ k * d.
Proof.
  intros Hd. unfold ceil_div.
  pose proof (Nat.div_mod_eq (n + (d - 1)) d).
  pose proof (Nat.mod_upper_bound (n + (d - 1)) d). nia.
Qed.

Section Upload.
Context `{External}.

Lemma upload_loop_spec new_page tb debug snaps pd idv fuel e h tr :
  (∀ b c, ∃ j, notion_blocks_children_append b c = Answer j) →
  Forall2 (λ r j, heap_at h r = Some j) tb snaps →
  heap_at h new_page = Some (JDict pd) →
  pd !! "id" = Some idv →
  e ≤ length tb →
  length tb - e ≤ fuel →
  ∃ h' tr' bs,
    upload_loop fuel new_page tb debug e (World h tr) =
      (Return tt, World (h ++ h') tr') ∧
    appended_batches tr' = appended_batches tr ++ bs ∧
    concat bs = drop e snaps ∧
    length bs = ceil_div (length tb - e) page_size.
Proof.
  intros Hok. revert e h tr.
  induction fuel as [|fuel IH]; intros e h tr Hsnaps Hpage Hid He Hfuel.
  - assert (e = length tb) as -> by lia.
    exists [], tr, []. simpl. rewrite bool_decide_eq_false_2 by lia.
    rewrite !app_nil_r. split_and!; try done.
    + rewrite drop_ge; [done|]. by rewrite <- (Forall2_length _ _ _ Hsnaps).
    + by rewrite Nat.sub_diag.
  - cbn [upload_loop]. case_bool_decide as Hlt.
    + set (e' := (e + page_size) `min` length tb).
      run (getitem_dict _ _ _ _ _ _ Hpage Hid).
      run (load_run _ _ _ _ (heap_at_child_dict _ _ _ _ _ Hpage Hid)).
      assert (Forall2 (λ r j, heap_at h r = Some j)
                (slice tb e e') (slice snaps e e')) as Hslice.
      { unfold slice. by apply Forall2_take, Forall2_drop. }
      run (mapM_load _ _ _ _ Hslice).
      run (emit_run _ _ _).
      destruct (Hok idv (slice snaps e e')) as [j Hj]. rewrite Hj.
      unfold answer. run (alloc_run _ _ _).
      assert (∃ tr1,
        (when debug
           (load (Ref (length h) []) ≫= λ v,
              print ("Block creation response: " +:+ to_prettified_json v)))
          (World (h ++ [j]) (tr ++ [EvChildrenAppend idv (slice snaps e e')])) =
          (Return tt, World (h ++ [j]) tr1) ∧
        appended_batches tr1 = appended_batches tr ++ [slice snaps e e'])
        as (tr1 & Hdebug & Htr1).
      { destruct debug; simpl.
        - eexists. split.
          + run (load_run _ _ _ _ (heap_at_last h j [])). apply emit_run.
          + rewrite !appended_batches_app. simpl. by rewrite app_nil_r.
        - eexists. split; [done|]. by rewrite appended_batches_app. }
      run Hdebug.
      destruct (IH e' (h ++ [j]) tr1) as (h' & tr' & bs & Hrun & Htr & Hcat & Hlen).
      { eapply Forall2_impl; [done|]. intros; by apply heap_at_app. }
      { by apply heap_at_app. }
      { done. }
      { unfold e'. lia. }
      { unfold e', page_size. lia. }
      exists ([j] ++ h'), tr', (slice snaps e e' :: bs).
      rewrite app_assoc. split_and!; [done| | |].
      * rewrite Htr, Htr1. by rewrite <- app_assoc.
      * simpl. rewrite Hcat. unfold slice.
        rewrite <- (take_drop (e' - e) (drop e snaps)) at 2.
        rewrite drop_drop. do 3 f_equal. unfold e'. lia.
      * cbn [length]. rewrite Hlen. unfold ceil_div, e', page_size.
        pose proof (Nat.div_mod_eq (length tb - (e + 10) `min` length tb + (10 - 1)) 10).
        pose proof (Nat.div_mod_eq (length tb - e + (10 - 1)) 10).
        pose proof (Nat.mod_upper_bound
                      (length tb - (e + 10) `min` length tb + (10 - 1)) 10).
        pose proof (Nat.mod_upper_bound (length tb - e + (10 - 1)) 10).
        lia.
    + assert (e = length tb) as -> by lia.
      exists [], tr, []. rewrite !app_nil_r. split_and!; try done.
      * rewrite drop_ge; [done|]. by rewrite <- (Forall2_length _ _ _ Hsnaps).
      * by rewrite Nat.sub_diag.
Qed.

(** C6: when every block reference is live, the new page has an id and
    the append endpoint answers, the upload loop makes exactly
    ceil(N / 10) append calls for a list of N blocks, and the batches it
    passes, concatenated in call order, are the N blocks. *)
Theorem upload_blocks_batches new_page tb debug snaps pd idv w :
  (∀ b c, ∃ j, notion_blocks_children_append b c = Answer j) →
  Forall2 (λ r j, heap_at (heap w) r = Some j) tb snaps →
  heap_at (heap w) new_page = Some (JDict pd) →
  pd !! "id" = Some idv →
  ∃ w' bs,
    upload_blocks new_page tb debug w = (Return tt, w') ∧
    appended_batches (trace w') = appended_batches (trace w) ++ bs ∧
    length bs = ceil_div (length snaps) 10 ∧
    concat bs = snaps.
Proof.
  destruct w as [h tr]. simpl. intros Hok Hsnaps Hpage Hid.
  destruct (upload_loop_spec new_page tb debug snaps pd idv (length tb) 0 h tr)
    as (h' & tr' & bs & Hrun & Htr & Hcat & Hlen); try done; try lia.
  exists (World (h ++ h') tr'), bs. simpl. split_and!; try done.
  by rewrite Hlen, Nat.sub_0_r, (Forall2_length _ _ _ Hsnaps).
Qed.

End Upload.

Lemma upload_blocks_batches_witness :
  ∃ w' bs,
    @upload_blocks example_services (Ref 0 [])
      (map (λ i, Ref 1 [Idx i]) (seq 0 11)) false
      (World [JDict {[ "id" := JStr "new" ]}; JList example_blocks] []) =
      (Return tt, w') ∧
    appended_batches (trace w') = [] ++ bs ∧
    length bs = ceil_div (length example_blocks) 10 ∧
    concat bs = example_blocks.
Proof.
  apply (@upload_blocks_batches example_services (Ref 0 [])
           (map (λ i, Ref 1 [Idx i]) (seq 0 11)) false example_blocks
           {[ "id" := JStr "new" ]} (JStr "new")
           (World [JDict {[ "id" := JStr "new" ]}; JList example_blocks] [])).
  - intros b c. by exists JNull.
  - simpl. repeat constructor.
  - reflexivity.
  - reflexivity.
Defined.

(** ** The pipeline on the example environment *)

(** A whole run at depth 0: both fetched blocks are uploaded in one batch
    without their server-managed keys, one page is created, and its title
    carries the destination code as it was typed. *)
Example main_example :
  let run :=
    @main example_services 1 "en" "fr" "https://www.notion.so/My-Page-abc123"
      false empty_world in
  run.1 = Return tt ∧
  heap run.2 !! 0 = Some hello_page ∧
  appended_batches (trace run.2) =
    [[JDict {[ "type" := JStr "column_list"; "has_children" := JBool true;
               "column_list" := JDict {[ "children" := JList [JStr "column"] ]} ]};
      JDict {[ "type" := JStr "paragraph"; "has_children" := JBool false ]}]] ∧
  (∃ request,
     creation_requests (trace run.2) = [request] ∧
     json_at [Key "properties"; Key "title"; Key "title"; Idx 0; Key "plain_text"]
       request = Some (JStr "Hello (fr)") ∧
     json_at [Key "parent"] request = Some (JDict {[ "page_id" := JStr "abc123" ]}) ∧
     json_at [Key "id"] request = None).
Proof.
  split_and!; [vm_compute; reflexivity..|].
  eexists. split_and!; vm_compute; reflexivity.
Qed.

(** * Further properties *)

(** ** Start-up *)

Section Startup.
Context `{External}.


Lemma program_with_credentials config fuel from_lang to_lang url debug w :
  is_Some (config !! "NOTION_API_TOKEN") →
  is_Some (config !! "DEEPL_API_TOKEN") →
  program config fuel from_lang to_lang url debug w =
    main fuel from_lang to_lang url debug w.
Proof.
  intros Hn Hd. unfold program, startup.
  rewrite !bool_decide_eq_true_2 by done.
  run (ret_run _ _). by run (ret_run _ _).
Qed.

End Startup.


(** ** The page id, in general *)

Lemma split_no_sep sep s : occurs sep s = false → split sep s = [s].
Proof.
  induction s as [|c s IH]; simpl; [done|].
  destruct (Ascii.eqb c sep); simpl; [done|].
  intros Hs. by rewrite IH.
Qed.

Lemma split_pieces sep s : Forall (λ piece, occurs sep piece = false) (split sep s).
Proof.
  induction s as [|c s IH]; simpl; [by repeat constructor|].
  destruct (Ascii.eqb c sep) eqn:Hc; [by constructor|].
  destruct (split sep s) as [|piece rest];
    [by repeat constructor; simpl; rewrite Hc|].
  apply Forall_cons in IH as [Hpiece Hrest].
  constructor; [|done]. simpl. by rewrite Hc.
Qed.

Lemma occurs_app c a b : occurs c (a +:+ b) = occurs c a || occurs c b.
Proof. induction a as [|x a IH]; simpl; [done|]. by rewrite IH, orb_assoc. Qed.

Lemma string_app_assoc (a b c : string) : (a +:+ b) +:+ c = a +:+ (b +:+ c).
Proof.
  induction a as [|x a IH]; [done|].
  change (String x ((a +:+ b) +:+ c) = String x (a +:+ b +:+ c)). by f_equal.
Qed.

Lemma join_split sep s : join sep (split sep s) = s.
Proof.
  induction s as [|c s IH]; simpl; [done|].
  pose proof (split_nonempty sep s) as Hne.
  destruct (Ascii.eqb c sep) eqn:Hc.
  - apply Ascii.eqb_eq in Hc as ->.
    destruct (split sep s) as [|piece rest]; [done|]. simpl in *. by rewrite IH.
  - destruct (split sep s) as [|piece [|second rest]]; [done|..]; simpl in *;
      by rewrite <- IH.
Qed.

Lemma join_snoc sep l x :
  l ≠ [] → join sep (l ++ [x]) = join sep l +:+ String sep x.
Proof.
  induction l as [|y l IH]; intros Hne; [done|].
  destruct l as [|z l]; [done|].
  change (join sep ((y :: z :: l) ++ [x]))
    with (y +:+ String sep (join sep ((z :: l) ++ [x]))).
  rewrite IH by done.
  change (join sep (y :: z :: l)) with (y +:+ String sep (join sep (z :: l))).
  by rewrite string_app_assoc.
Qed.

(** The last piece of a split: it has no separator, and the string is
    that piece alone or ends with the separator followed by it. *)
Lemma split_last sep s :
  ∃ piece,
    last_item (split sep s) = inr piece ∧ occurs sep piece = false ∧
    (s = piece ∨ ∃ prefix, s = prefix +:+ String sep piece).
Proof.
  pose proof (split_nonempty sep s) as Hne.
  pose proof (split_pieces sep s) as Hp.
  pose proof (join_split sep s) as Hjoin.
  unfold last_item.
  destruct (last (split sep s)) as [piece|] eqn:Hlast;
    [|by apply last_None in Hlast].
  exists piece. split_and!; [done| |].
  - rewrite Forall_forall in Hp. by apply Hp, last_Some_elem_of.
  - apply last_Some in Hlast as [l' Hl']. rewrite Hl' in Hjoin.
    destruct l' as [|y l']; [by left|].
    right. exists (join sep (y :: l')). by rewrite <- Hjoin, join_snoc.
Qed.

Lemma last_item_split_tail sep p t :
  occurs sep t = false →
  ∃ piece,
    last_item (split sep p) = inr piece ∧
    last_item (split sep (p +:+ t)) = inr (piece +:+ t).
Proof.
  intros Ht. destruct (split_last sep p) as (piece & Hlast & Hpiece & Hshape).
  exists piece. split; [done|].
  assert (split sep (piece +:+ t) = [piece +:+ t]) as Hsplit.
  { apply split_no_sep. by rewrite occurs_app, Hpiece, Ht. }
  destruct Hshape as [->|[prefix ->]].
  - by rewrite Hsplit.
  - rewrite string_app_assoc.
    change (String sep piece +:+ t) with (String sep (piece +:+ t)).
    by rewrite last_item_split_app, Hsplit.
Qed.




(** ** Stripping: what is not an object, and an object without the keys *)

Lemma pop_Raise r k h tr x :
  heap_at h r = Some x → (∀ d, x ≠ JDict d) →
  pop r k (World h tr) =
    (Raise (match x with JList _ => TypeError | _ => AttributeError end),
     World h tr).
Proof.
  intros E Hx. apply (mutate_Raise _ _ _ _ _ _ E). destruct x; naive_solver.
Qed.

Lemma stripped_id d :
  (∀ k, k ∈ keys_to_remove → d !! k = None) → stripped d = d.
Proof.
  intros Hd. apply map_eq. intros k.
  destruct (decide (k ∈ keys_to_remove)) as [Hk|Hk].
  - by rewrite stripped_removed, Hd.
  - by apply stripped_kept.
Qed.





(** ** Translation: the calls made, what is left alone, and failure *)

Lemma mapM_app_Raise {A B} (f : A → M B) l1 l2 w us w1 e w2 :
  mapM f l1 w = (Return us, w1) →
  mapM f l2 w1 = (Raise e, w2) →
  mapM f (l1 ++ l2) w = (Raise e, w2).
Proof.
  revert w us. induction l1 as [|a l1 IH]; intros w us H1 H2; simpl in *.
  - rewrite ret_run in H1. by simplify_eq.
  - apply bind_Return_inv in H1 as (b & w' & Ha & Hrest).
    apply bind_Return_inv in Hrest as (bs & w'' & Hl1 & Hret).
    rewrite ret_run in Hret. simplify_eq.
    run Ha. by stop (IH _ _ Hl1 H2).
Qed.

Lemma translation_requests_app tr1 tr2 :
  translation_requests (tr1 ++ tr2) =
    translation_requests tr1 ++ translation_requests tr2.
Proof. apply omap_app. Qed.

Lemma translation_requests_runs from_lang to_lang runs :
  translation_requests (concat (map (run_requests from_lang to_lang) runs)) =
    map (λ p, (p, from_lang, to_lang)) (omap plain_text_of runs).
Proof.
  induction runs as [|run runs IH]; [done|]. simpl.
  rewrite translation_requests_app, IH. unfold run_requests.
  by destruct (plain_text_of run).
Qed.

Section TranslationMore.
Context `{External}.

Lemma translate_run_exact each from_lang to_lang h tr run :
  heap_at h each = Some run →
  translatable from_lang to_lang run = true →
  translate_run each from_lang to_lang (World h tr) =
    (Return tt,
     World (heap_put (h ++ run_answers from_lang to_lang run) each
              (translate_value from_lang to_lang run))
           (tr ++ run_requests from_lang to_lang run)).
Proof.
  intros E Hrun. destruct run as [| | | | |rd]; try done.
  unfold translate_run, translatable, translate_value, run_answers,
    run_requests, plain_text_of in *.
  run (has_key_dict "plain_text" _ _ _ _ E).
  destruct (rd !! "plain_text") as [p|] eqn:Hp.
  - rewrite bool_decide_eq_true_2 by eauto.
    run (getitem_dict _ _ _ _ _ _ E Hp).
    run (load_run _ _ _ _ (heap_at_child_dict _ _ _ _ _ E Hp)).
    run (emit_run _ _ _).
    destruct (translator_translate p from_lang to_lang) as [t|]; [|done].
    unfold answer. run (alloc_run _ _ _).
    run (load_run _ _ _ _ (heap_at_last h t [])).
    pose proof (heap_at_app _ [t] _ _ E) as E1.
    run (setitem_run _ _ _ _ _ _ E1).
    pose proof (heap_at_put _ _ _ (JDict (<["plain_text" := t]> rd)) E1) as E2.
    run (has_key_dict "text" _ _ _ _ E2).
    rewrite lookup_insert_ne by done. unfold translated_run.
    destruct (rd !! "text") as [x|] eqn:Hx.
    + destruct x as [| | | | |td]; try done.
      rewrite bool_decide_eq_true_2 by eauto.
      run (getitem_dict _ "plain_text" _ _ _ _ E2 (lookup_insert_eq _ _ _)).
      run (load_run _ _ _ _
             (heap_at_child_dict _ _ "plain_text" _ _ E2 (lookup_insert_eq _ _ _))).
      assert (<["plain_text" := t]> rd !! "text" = Some (JDict td)) as Hx'.
      { by rewrite lookup_insert_ne. }
      run (getitem_dict _ _ _ _ _ _ E2 Hx').
      rewrite (setitem_run _ _ _ _ _ _ (heap_at_child_dict _ _ _ _ _ E2 Hx')).
      rewrite (heap_put_child _ _ _ _ _ E2), (json_put_dict _ _ _ _ _ Hx').
      simpl json_put. by rewrite heap_put_put.
    + by rewrite bool_decide_eq_false_2 by apply is_Some_None.
  - rewrite bool_decide_eq_false_2 by apply is_Some_None.
    by rewrite !app_nil_r, (heap_put_id _ _ _ E).
Qed.

Lemma translate_run_fails each from_lang to_lang h tr rd p msg :
  heap_at h each = Some (JDict rd) →
  rd !! "plain_text" = Some p →
  translator_translate p from_lang to_lang = Failure msg →
  translate_run each from_lang to_lang (World h tr) =
    (Raise (ApiError msg), World h (tr ++ [EvTranslate p from_lang to_lang])).
Proof.
  intros E Hp Hfail. unfold translate_run.
  run (has_key_dict "plain_text" _ _ _ _ E).
  rewrite Hp, bool_decide_eq_true_2 by eauto.
  run (getitem_dict _ _ _ _ _ _ E Hp).
  run (load_run _ _ _ _ (heap_at_child_dict _ _ _ _ _ E Hp)).
  run (emit_run _ _ _). rewrite Hfail. unfold answer.
  by stop (raise_run _ _).
Qed.

(** The loop over the runs [i .. i + k - 1] of the array. *)
Lemma translate_runs_range arr from_lang to_lang k :
  ∀ i l h tr,
    heap_at h arr = Some (JList l) →
    i + k ≤ length l →
    forallb (translatable from_lang to_lang) (take k (drop i l)) = true →
    ∃ h' us,
      mapM (λ each, translate_run each from_lang to_lang)
        (map (λ j, ref_child arr (Idx j)) (seq i k)) (World h tr) =
        (Return us,
         World h'
           (tr ++ concat (map (run_requests from_lang to_lang)
                            (take k (drop i l))))) ∧
      heap_at h' arr =
        Some (JList (take i l ++
                     map (translate_value from_lang to_lang) (take k (drop i l)) ++
                     drop (i + k) l)).
Proof.
  induction k as [|k IH]; intros i l h tr E Hlen Hall.
  - exists h, []. simpl. rewrite Nat.add_0_r, take_drop, !app_nil_r. done.
  - destruct (lookup_lt_is_Some_2 l i) as [x Hx]; [lia|].
    rewrite (drop_S _ _ _ Hx) in Hall |- *. simpl in Hall.
    apply andb_true_iff in Hall as [Hrun Hall].
    cbn [seq map mapM take concat].
    run (translate_run_exact _ from_lang to_lang h tr x
           (heap_at_child_list _ _ _ _ _ E Hx) Hrun).
    pose proof (heap_at_app _ (run_answers from_lang to_lang x) _ _ E) as E0.
    rewrite (heap_put_child _ _ _ _ _ E0), (json_put_list _ _ _ _ _ Hx).
    simpl json_put.
    set (x' := translate_value from_lang to_lang x).
    destruct (IH (S i) (<[i := x']> l) _
                (tr ++ run_requests from_lang to_lang x)
                (heap_at_put _ _ _ _ E0))
      as (h' & us & Hrest & E').
    { rewrite length_insert. lia. }
    { by rewrite drop_insert_lt by lia. }
    rewrite drop_insert_lt in Hrest, E' by lia.
    run Hrest. exists h', (() :: us). rewrite ret_run, <- app_assoc.
    split; [done|]. rewrite E'. do 2 f_equal.
    rewrite (take_S_r _ _ x') by (apply list_lookup_insert_eq; lia).
    rewrite take_insert_ge, <- app_assoc by done. simpl.
    rewrite (drop_insert_lt l (S (i + k)) i x') by lia.
    by rewrite Nat.add_succ_r.
Qed.

Lemma translate_text_exact h tr arr from_lang to_lang runs :
  heap_at h arr = Some (JList runs) →
  forallb (translatable from_lang to_lang) runs = true →
  ∃ h',
    translate_text arr from_lang to_lang (World h tr) =
      (Return tt,
       World h' (tr ++ concat (map (run_requests from_lang to_lang) runs))) ∧
    heap_at h' arr = Some (JList (map (translate_value from_lang to_lang) runs)).
Proof.
  intros E Hall.
  destruct (translate_runs_range arr from_lang to_lang (length runs) 0 runs h tr E)
    as (h' & us & Hrun & E'); [done|by rewrite drop_0, firstn_all|].
  rewrite drop_0, firstn_all in Hrun, E'.
  change (0 + length runs) with (length runs) in E'.
  rewrite drop_all, app_nil_r in E'.
  exists h'. split; [|done].
  unfold translate_text, iterate.
  run (load_run _ _ _ _ E). run (ret_run _ _). by run Hrun.
Qed.




End TranslationMore.




(** ** Fetching blocks at any depth *)

Section FetchMore.
Context `{External}.

Lemma subscript_not_object x k :
  (∀ d, x ≠ JDict d) → subscript x (Key k) = inl TypeError.
Proof. destruct x; naive_solver. Qed.

(** What the loop body does when it returns, at any depth. *)
Lemma block_step_inv d acc b h tr x acc' w' :
  heap_at h b = Some x →
  block_step d acc b (World h tr) = (Return acc', w') →
  ∃ bd t x',
    x = JDict bd ∧ bd !! "type" = Some t ∧
    w' = World (heap_put h b x') tr ∧
    (acc' = acc ∨
     acc' = acc ++ [b] ∧ is_str "unsupported" t = false ∧
     ∃ bd1,
       x' = JDict (stripped bd1) ∧ bd1 !! "type" = Some t ∧
       ((2 ≤ d)%Z → bd1 !! "has_children" = Some (JBool false))).
Proof.
  intros E. unfold block_step, when.
  assert ((∃ bd, x = JDict bd) ∨ ∀ bd, x ≠ JDict bd) as [[bd ->]|Hx]
    by (destruct x; eauto).
  2:{ destruct (d >=? 2)%Z.
      { by stop (setitem_Raise _ _ _ _ _ _ E Hx). }
      run (ret_run _ _).
      destruct (d =? 1)%Z.
      - by stop (getitem_Raise _ _ _ _ _ _ E (subscript_not_object _ "type" Hx)).
      - run (ret_run _ _).
        by stop (getitem_Raise _ _ _ _ _ _ E (subscript_not_object _ "type" Hx)). }
  destruct (d >=? 2)%Z eqn:Hd.
  - assert ((d =? 1)%Z = false) as -> by lia.
    run (setitem_run _ _ _ _ _ _ E). run (ret_run _ _).
    set (bd1 := <["has_children" := JBool false]> bd).
    pose proof (heap_at_put _ _ _ (JDict bd1) E) as E1.
    destruct (bd !! "type") as [t|] eqn:Ht.
    2:{ by stop (getitem_Raise _ (Key "type") _ _ _ (KeyError (Key "type")) E1
                   ltac:(by simpl; unfold bd1; rewrite lookup_insert_ne, Ht)). }
    assert (bd1 !! "type" = Some t) as Ht1 by (by unfold bd1; rewrite lookup_insert_ne).
    run (getitem_dict _ _ _ _ _ _ E1 Ht1).
    run (load_run _ _ _ _ (heap_at_child_dict _ _ _ _ _ E1 Ht1)).
    destruct (is_str "unsupported" t) eqn:Hu.
    + rewrite ret_run. intros [= <- <-]. exists bd, t, (JDict bd1). eauto.
    + run (remove_unnecessary_properties_run _ _ _ _ E1).
      rewrite ret_run, heap_put_put. intros [= <- <-].
      exists bd, t, (JDict (stripped bd1)). split_and!; try done.
      right. split_and!; try done. exists bd1. split_and!; try done.
      intros _. apply lookup_insert_eq.
  - run (ret_run _ _).
    destruct (bd !! "type") as [t|] eqn:Ht.
    2:{ destruct (d =? 1)%Z.
        - by stop (getitem_Raise _ (Key "type") _ _ _ (KeyError (Key "type")) E
                     ltac:(by simpl; rewrite Ht)).
        - run (ret_run _ _).
          by stop (getitem_Raise _ (Key "type") _ _ _ (KeyError (Key "type")) E
                     ltac:(by simpl; rewrite Ht)). }
    assert (∀ (k : bool → M (list ref)),
              ((if (d =? 1)%Z
                then getitem b (Key "type") ≫= λ t0, load t0 ≫= λ v,
                       ret (is_str "column_list" v)
                else ret false) ≫= k) (World h tr) =
              k ((d =? 1)%Z && is_str "column_list" t) (World h tr)) as Hfirst.
    { intros k. destruct (d =? 1)%Z.
      - run (getitem_dict _ _ _ _ _ _ E Ht).
        run (load_run _ _ _ _ (heap_at_child_dict _ _ _ _ _ E Ht)).
        by run (ret_run _ _).
      - by run (ret_run _ _). }
    rewrite Hfirst. clear Hfirst.
    destruct ((d =? 1)%Z && is_str "column_list" t) eqn:Hcl.
    + destruct (bd !! "column_list") as [cl|] eqn:Hcol.
      2:{ by stop (getitem_Raise _ (Key "column_list") _ _ _
                     (KeyError (Key "column_list")) E
                     ltac:(by simpl; rewrite Hcol)). }
      run (getitem_dict _ _ _ _ _ _ E Hcol).
      pose proof (heap_at_child_dict _ _ _ _ _ E Hcol) as Ecl.
      assert ((∃ cld, cl = JDict cld) ∨ ∀ d, cl ≠ JDict d) as [[cld ->]|Hnd]
        by (destruct cl; eauto).
      2:{ by stop (setitem_Raise _ _ _ _ _ _ Ecl Hnd). }
      run (setitem_run _ _ _ _ _ _ Ecl). rewrite ret_run. intros [= <- <-].
      rewrite (heap_put_child _ _ _ _ _ E). eauto 10.
    + run (getitem_dict _ _ _ _ _ _ E Ht).
      run (load_run _ _ _ _ (heap_at_child_dict _ _ _ _ _ E Ht)).
      destruct (is_str "unsupported" t) eqn:Hu.
      * rewrite ret_run. intros [= <- <-]. exists bd, t, (JDict bd).
        rewrite (heap_put_id _ _ _ E). eauto.
      * run (remove_unnecessary_properties_run _ _ _ _ E).
        rewrite ret_run. intros [= <- <-].
        exists bd, t, (JDict (stripped bd)). split_and!; try done.
        right. split_and!; try done. exists bd. split_and!; try done. lia.
Qed.

(** An invariant of the collected blocks: if the loop body only collects
    blocks for which [K] holds once they are processed, [K] holds for
    every block [build_translated_blocks] returns. *)
Section Kept.
Variable d : Z.
Variable K : json → Prop.
Hypothesis body_keeps :
  ∀ acc b h tr x acc' w',
    heap_at h b = Some x →
    block_step d acc b (World h tr) = (Return acc', w') →
    (∃ bd, x = JDict bd) ∧
    ∃ x', w' = World (heap_put h b x') tr ∧
          (acc' = acc ∨ acc' = acc ++ [b] ∧ K x').

Lemma all_kept_app h h' refs : all_kept K h refs → all_kept K (h ++ h') refs.
Proof.
  intros Hrefs. eapply Forall_impl; [exact Hrefs|].
  intros r (x & Hx & HK). eauto using heap_at_app.
Qed.

Lemma block_steps_kept results k :
  ∀ i l h tr acc acc' w',
    heap_at h results = Some (JList l) →
    i + k = length l →
    foldM (block_step d) acc
      (map (λ j, ref_child results (Idx j)) (seq i k)) (World h tr) =
      (Return acc', w') →
    ∃ l' new,
      w' = World (heap_put h results (JList l')) tr ∧
      length l' = length l ∧
      take i l' = take i l ∧
      acc' = acc ++ new ∧
      Forall (λ r, ∃ j x, r = ref_child results (Idx j) ∧
                          l' !! j = Some x ∧ K x) new.
Proof.
  induction k as [|k IH]; intros i l h tr acc acc' w' E Hlen Hrun.
  - simpl in Hrun. rewrite ret_run in Hrun. simplify_eq.
    exists l, []. rewrite (heap_put_id _ _ _ E), app_nil_r. by split_and!.
  - cbn [seq map foldM] in Hrun.
    apply bind_Return_inv in Hrun as (acc1 & w1 & Hstep & Hrest).
    destruct (lookup_lt_is_Some_2 l i) as [x Hx]; [lia|].
    pose proof (heap_at_child_list _ _ _ _ _ E Hx) as Eb.
    destruct (body_keeps _ _ _ _ _ _ _ Eb Hstep) as (_ & x' & -> & Hacc1).
    rewrite (heap_put_child _ _ _ _ _ E), (json_put_list _ _ _ _ _ Hx) in Hrest.
    simpl json_put in Hrest.
    destruct (IH (S i) (<[i := x']> l) _ tr acc1 acc' w'
                (heap_at_put _ _ _ _ E))
      as (l' & new & -> & Hl' & Htake & -> & Hnew);
      [rewrite length_insert; lia|done|].
    rewrite length_insert in Hl'.
    assert (l' !! i = Some x') as Hi.
    { rewrite <- (lookup_take_lt l' (S i) i), Htake by lia.
      rewrite lookup_take_lt by lia. apply list_lookup_insert_eq. lia. }
    assert (take i l' = take i l) as Htake'.
    { transitivity (take i (take (S i) l')).
      - rewrite take_take. f_equal. lia.
      - rewrite Htake, take_take, Nat.min_l by lia. by apply take_insert_ge. }
    rewrite heap_put_put.
    destruct Hacc1 as [->|[-> Hkept]].
    + exists l', new. by split_and!.
    + exists l', (ref_child results (Idx i) :: new).
      split_and!; try done; [by rewrite <- app_assoc|].
      constructor; [|done]. by exists i, x'.
Qed.

Lemma block_steps_strings {A} (f : A → string) l acc h tr acc' w' :
  foldM (block_step d) acc
    (map (λ i, Ref (length h + i) []) (seq 0 (length l)))
    (World (h ++ map (λ a, JStr (f a)) l) tr) = (Return acc', w') →
  l = [] ∧ acc' = acc ∧ w' = World h tr.
Proof.
  destruct l as [|a l]; simpl.
  - rewrite ret_run, app_nil_r. by intros [= <- <-].
  - intros (acc1 & w1 & Hstep & _)%bind_Return_inv.
    assert (heap_at (h ++ JStr (f a) :: map (λ a, JStr (f a)) l)
              (Ref (length h + 0) []) = Some (JStr (f a))) as E.
    { rewrite Nat.add_0_r. unfold heap_at. simpl. by rewrite list_lookup_middle. }
    by destruct (body_keeps _ _ _ _ _ _ _ E Hstep) as [[??] _].
Qed.

Lemma fetch_loop_kept block_id debug fuel :
  ∀ cursor acc h tr refs w',
    all_kept K h acc →
    fetch_loop fuel block_id d debug cursor acc (World h tr) = (Return refs, w') →
    all_kept K (heap w') refs.
Proof.
  induction fuel as [|fuel IH]; intros cursor acc h tr refs w' Hacc; [done|].
  cbn [fetch_loop]. run (emit_run _ _ _).
  destruct (notion_blocks_children_list block_id cursor 100) as [j|msg].
  2:{ unfold answer. stop (raise_run _ _). done. }
  unfold answer. run (alloc_run _ _ _).
  set (blocks := Ref (length h) []).
  pose proof (heap_at_last h j []) as Eb. simpl in Eb. fold blocks in Eb.
  destruct (subscript j (Key "results")) as [e|rv] eqn:Hres.
  { destruct debug; unfold when.
    - stop (getitem_Raise _ _ _ _ _ _ Eb Hres). done.
    - run (ret_run _ _). run (emit_run _ _ _).
      stop (getitem_Raise _ _ _ _ _ _ Eb Hres). done. }
  destruct j as [| | | | |jd]; try done. simpl in Hres.
  destruct (jd !! "results") as [rv'|] eqn:Hres'; simplify_eq.
  pose proof (heap_at_child_dict _ _ _ _ _ Eb Hres') as Er.
  lazymatch goal with
  | |- context [when debug ?c] =>
      assert (∃ tr1,
        when debug c
          (World (h ++ [JDict jd]) (tr ++ [EvChildrenList block_id cursor 100])) =
          (Return tt, World (h ++ [JDict jd]) tr1)) as [tr1 Hdebug]
  end.
  { destruct debug; unfold when; [|by eexists]. eexists.
    run (getitem_dict _ _ _ _ _ _ Eb Hres'). run (load_run _ _ _ _ Er).
    apply emit_run. }
  run Hdebug. run (emit_run _ _ _). clear Hdebug.
  run (getitem_dict _ _ _ _ _ _ Eb Hres').
  lazymatch goal with
  | |- (_ ≫= λ items, _ ≫= ?rest) _ = _ → _ =>
      assert (∀ jd2 tr2 acc2,
        all_kept K (h ++ [JDict jd2]) acc2 →
        rest acc2 (World (h ++ [JDict jd2]) tr2) = (Return refs, w') →
        all_kept K (heap w') refs) as Htail
  end.
  { intros jd2 tr2 acc2 Hacc2.
    pose proof (heap_at_last h (JDict jd2) []) as Eb2. simpl in Eb2.
    fold blocks in Eb2.
    destruct (jd2 !! "has_more") as [more|] eqn:Hm.
    2:{ stop (getitem_Raise _ (Key "has_more") _ _ _ _ Eb2
                ltac:(by simpl; rewrite Hm)). done. }
    run (getitem_dict _ _ _ _ _ _ Eb2 Hm).
    run (load_run _ _ _ _ (heap_at_child_dict _ _ _ _ _ Eb2 Hm)).
    destruct (truthy more).
    - destruct (jd2 !! "next_cursor") as [next|] eqn:Hn.
      2:{ stop (getitem_Raise _ (Key "next_cursor") _ _ _ _ Eb2
                  ltac:(by simpl; rewrite Hn)). done. }
      run (getitem_dict _ _ _ _ _ _ Eb2 Hn).
      run (load_run _ _ _ _ (heap_at_child_dict _ _ _ _ _ Eb2 Hn)).
      by apply IH.
    - rewrite ret_run. by intros [= <- <-]. }
  unfold iterate. run (load_run _ _ _ _ Er).
  destruct rv as [| | |s|l|dd]; try (stop (raise_run _ _); done).
  - run (mapM_alloc (λ c, JStr (String c EmptyString)) _ _ _).
    intros (acc1 & w1 & Hfold & Hrest)%bind_Return_inv.
    apply (block_steps_strings (λ c, String c EmptyString)) in Hfold
      as (_ & -> & ->).
    eapply Htail; [|done]. by apply all_kept_app.
  - run (ret_run _ _).
    intros (acc1 & w1 & Hfold & Hrest)%bind_Return_inv.
    apply (block_steps_kept _ _ 0 l _ _ _ _ _ Er eq_refl) in Hfold
      as (l' & new & -> & Hlen & _ & -> & Hnew).
    change (ref_child blocks (Key "results"))
      with (Ref (length h) [Key "results"]) in *.
    rewrite heap_put_last, (json_put_dict _ _ _ _ _ Hres') in Hrest.
    simpl json_put in Hrest.
    eapply Htail; [|done].
    apply Forall_app. split; [by apply all_kept_app|].
    eapply Forall_impl; [done|]. intros r (i & x & -> & Hi & Hx).
    exists x. split; [|done].
    rewrite heap_at_child, heap_at_last. simpl.
    by rewrite lookup_insert_eq; simpl; rewrite Hi.
  - run (mapM_alloc (λ kv : string * json, JStr kv.1) _ _ _).
    intros (acc1 & w1 & Hfold & Hrest)%bind_Return_inv.
    apply (block_steps_strings (λ kv : string * json, kv.1)) in Hfold
      as (_ & -> & ->).
    eapply Htail; [|done]. by apply all_kept_app.
Qed.

End Kept.



End FetchMore.



(** ** Fetching at depth 0, page by page *)

Section FetchPages.
Context `{External}.

Lemma network_calls_app tr1 tr2 :
  network_calls (tr1 ++ tr2) = network_calls tr1 ++ network_calls tr2.
Proof. apply omap_app. Qed.

Lemma network_calls_debug (debug : bool) s :
  network_calls (if debug then [EvStdout s] else []) = [].
Proof. by destruct debug. Qed.

Lemma kept_block_processed x y : kept_block x = Some y → processed_block x = y.
Proof. unfold processed_block. by intros ->. Qed.

Lemma block_step_depth0 acc b h tr x :
  heap_at h b = Some x → typed_block x = true →
  block_step 0 acc b (World h tr) =
    (Return (acc ++ match kept_block x with Some _ => [b] | None => [] end),
     World (heap_put h b (processed_block x)) tr).
Proof.
  intros E Hx. destruct x as [| | | | |bd]; try done. simpl in Hx.
  apply bool_decide_eq_true_1 in Hx as [t Ht].
  unfold block_step, processed_block. simpl. rewrite Ht.
  change (0 >=? 2)%Z with false. change (0 =? 1)%Z with false.
  unfold when. cbv iota. run (ret_run _ _). run (ret_run _ _).
  run (getitem_dict _ _ _ _ _ _ E Ht).
  run (load_run _ _ _ _ (heap_at_child_dict _ _ _ _ _ E Ht)).
  destruct (is_str "unsupported" t); simpl.
  - by rewrite ret_run, app_nil_r, (heap_put_id _ _ _ E).
  - run (remove_unnecessary_properties_run _ _ _ _ E). by rewrite ret_run.
Qed.

Lemma block_steps_depth0 results l2 :
  ∀ l1 h tr acc,
    heap_at h results = Some (JList (l1 ++ l2)) →
    Forall (λ x, typed_block x = true) l2 →
    ∃ new,
      foldM (block_step 0) acc
        (map (λ j, ref_child results (Idx j)) (seq (length l1) (length l2)))
        (World h tr) =
        (Return (acc ++ new),
         World (heap_put h results (JList (l1 ++ map processed_block l2))) tr) ∧
      Forall2 (λ r y, ∃ j, r = ref_child results (Idx j) ∧
                           (l1 ++ map processed_block l2) !! j = Some y)
        new (omap kept_block l2).
Proof.
  induction l2 as [|x l2 IH]; intros l1 h tr acc E Htyped.
  - exists []. simpl. rewrite ret_run, !app_nil_r in *.
    by rewrite (heap_put_id _ _ _ E).
  - apply Forall_cons in Htyped as [Hx Htyped].
    pose proof (list_lookup_middle l1 l2 x _ eq_refl) as Hi.
    pose proof (heap_at_child_list _ _ _ _ _ E Hi) as Eb.
    destruct (IH (l1 ++ [processed_block x])
                (heap_put h (ref_child results (Idx (length l1))) (processed_block x))
                tr
                (acc ++ match kept_block x with
                        | Some _ => [ref_child results (Idx (length l1))]
                        | None => []
                        end))
      as (new & Hrun & Hnew); [|done|].
    { rewrite (heap_put_child _ _ _ _ _ E), (json_put_list _ _ _ _ _ Hi).
      simpl json_put. rewrite <- app_assoc.
      replace (<[length l1 := processed_block x]> (l1 ++ x :: l2))
        with (l1 ++ [processed_block x] ++ l2);
        [by eapply heap_at_put|].
      rewrite insert_app_r_alt, Nat.sub_diag by done. done. }
    rewrite length_app, Nat.add_1_r in Hrun.
    rewrite (heap_put_child _ _ _ _ _ E), heap_put_put, <- !app_assoc in Hrun.
    rewrite <- app_assoc in Hnew.
    exists (match kept_block x with
            | Some _ => [ref_child results (Idx (length l1))]
            | None => []
            end ++ new).
    cbn [length seq map foldM].
    run (block_step_depth0 _ _ _ _ _ Eb Hx).
    rewrite (heap_put_child _ _ _ _ _ E). split; [done|].
    change (omap kept_block (x :: l2))
      with (match kept_block x with
            | Some y => y :: omap kept_block l2
            | None => omap kept_block l2
            end).
    destruct (kept_block x) as [y|] eqn:Hk; simpl; [|done].
    constructor; [|done]. exists (length l1). split; [done|].
    rewrite (kept_block_processed _ _ Hk). by apply list_lookup_middle.
Qed.

Variable block_id : json.
Variable debug : bool.

(** One round of the [while] loop on a well-formed answer. *)
Lemma fetch_loop_page fuel cursor jd l more acc h tr :
  notion_blocks_children_list block_id cursor 100 = Answer (JDict jd) →
  jd !! "results" = Some (JList l) →
  Forall (λ x, typed_block x = true) l →
  jd !! "has_more" = Some more →
  ∃ new tr1,
    let h1 := h ++ [JDict (<["results" := JList (map processed_block l)]> jd)] in
    fetch_loop (S fuel) block_id 0 debug cursor acc (World h tr) =
      (if truthy more then
         c ← getitem (Ref (length h) []) (Key "next_cursor");
         cursor ← load c;
         fetch_loop fuel block_id 0 debug cursor (acc ++ new)
       else ret (acc ++ new)) (World h1 (tr ++ tr1)) ∧
    Forall2 (λ r y, heap_at h1 r = Some y) new (omap kept_block l) ∧
    network_calls tr1 = [EvChildrenList block_id cursor 100].
Proof.
  intros Hans Hres Htyped Hmore.
  pose proof (heap_at_last h (JDict jd) []) as Eb. simpl in Eb.
  pose proof (heap_at_child_dict _ _ _ _ _ Eb Hres) as Er.
  destruct (block_steps_depth0 (Ref (length h) [Key "results"]) l []
              (h ++ [JDict jd])
              (((tr ++ [EvChildrenList block_id cursor 100]) ++
                (if debug
                 then [EvStdout (("Fetched original blocks: " +:+
                                  to_prettified_json (JList l)) +:+ "
")]
                 else [])) ++ [EvStdout "."]) acc Er Htyped)
    as (new & Hfold & Hnew).
  exists new. eexists. cbn zeta.
  cbn [fetch_loop]. run (emit_run _ _ _). rewrite Hans. unfold answer.
  run (alloc_run _ _ _).
  split_and!.
  - lazymatch goal with
    | |- context [when debug ?c] =>
        assert (when debug c
          (World (h ++ [JDict jd]) (tr ++ [EvChildrenList block_id cursor 100])) =
          (Return tt, World (h ++ [JDict jd])
             ((tr ++ [EvChildrenList block_id cursor 100]) ++
              (if debug
               then [EvStdout (("Fetched original blocks: " +:+
                                to_prettified_json (JList l)) +:+ "
")]
               else []))) ) as Hdebug
    end.
    { destruct debug; unfold when; [|by rewrite app_nil_r].
      run (getitem_dict _ _ _ _ _ _ Eb Hres). run (load_run _ _ _ _ Er).
      apply emit_run. }
    run Hdebug. clear Hdebug. run (emit_run _ _ _).
    run (getitem_dict _ _ _ _ _ _ Eb Hres).
    unfold iterate. run (load_run _ _ _ _ Er). run (ret_run _ _).
    change (ref_child (Ref (length h) []) (Key "results"))
      with (Ref (length h) [Key "results"]) in *.
    change (length (@nil json)) with 0 in Hfold.
    run Hfold.
    rewrite heap_put_last, (json_put_dict _ _ _ _ _ Hres). simpl json_put.
    set (jd' := <["results" := JList (map processed_block l)]> jd).
    pose proof (heap_at_last h (JDict jd') []) as Eb'. simpl in Eb'.
    assert (jd' !! "has_more" = Some more) as Hmore'
      by (unfold jd'; by rewrite lookup_insert_ne).
    run (getitem_dict _ _ _ _ _ _ Eb' Hmore').
    run (load_run _ _ _ _ (heap_at_child_dict _ _ _ _ _ Eb' Hmore')).
    rewrite <- !app_assoc. reflexivity.
  - eapply Forall2_impl; [exact Hnew|]. intros r y (j & -> & Hj).
    rewrite heap_at_child, heap_at_last. simpl in Hj |- *.
    by rewrite lookup_insert_eq; simpl; rewrite Hj.
  - rewrite !network_calls_app, network_calls_debug. done.
Qed.

Lemma fetch_loop_pages cursor pages :
  serves block_id cursor pages →
  Forall (λ a, Forall (λ x, typed_block x = true) a.2) pages →
  ∀ fuel h tr acc ys,
    length pages ≤ fuel →
    Forall2 (λ r y, heap_at h r = Some y) acc ys →
    ∃ refs h' tr',
      fetch_loop fuel block_id 0 debug cursor acc (World h tr) =
        (Return refs, World (h ++ h') (tr ++ tr')) ∧
      Forall2 (λ r y, heap_at (h ++ h') r = Some y) refs
        (ys ++ omap kept_block (concat pages.*2)) ∧
      length h' = length pages ∧
      network_calls tr' = map (λ a, EvChildrenList block_id a.1 100) pages.
Proof.
  induction 1 as [cursor jd l more Hans Hres Hmore Hlast
                 |cursor jd l more next pages Hans Hres Hmore Hnext Hcur Hserves IH];
    intros Htyped fuel h tr acc ys Hfuel Hacc;
    (destruct fuel as [|fuel]; [simpl in Hfuel; lia|]);
    apply Forall_cons in Htyped as [Hl Htyped]; cbn [snd] in Hl;
    destruct (fetch_loop_page fuel cursor jd l more acc h tr Hans Hres Hl Hmore)
      as (new & tr1 & Hrun & Hnew & Hreq); cbn zeta in Hrun, Hnew;
    set (jd' := <["results" := JList (map processed_block l)]> jd) in *;
    assert (Forall2 (λ r y, heap_at (h ++ [JDict jd']) r = Some y)
              (acc ++ new) (ys ++ omap kept_block l)) as Hacc'
      by (apply Forall2_app; [|done];
          eapply Forall2_impl; [exact Hacc|]; eauto using heap_at_app).
  - rewrite Hlast, ret_run in Hrun.
    exists (acc ++ new), [JDict jd'], tr1. split_and!.
    + done.
    + cbn [fmap list_fmap snd concat]. by rewrite app_nil_r.
    + done.
    + by rewrite Hreq.
  - rewrite Hnext in Hrun.
    pose proof (heap_at_last h (JDict jd') []) as Eb'. simpl in Eb'.
    assert (jd' !! "next_cursor" = Some next) as Hcur'
      by (unfold jd'; by rewrite lookup_insert_ne).
    rewrite (bind_Return _ _ _ _ _ (getitem_dict _ _ _ _ _ _ Eb' Hcur')) in Hrun.
    cbv beta in Hrun. rewrite ?bind_assoc in Hrun.
    rewrite (bind_Return _ _ _ _ _
               (load_run _ _ _ _ (heap_at_child_dict _ _ _ _ _ Eb' Hcur'))) in Hrun.
    cbv beta in Hrun.
    destruct (IH Htyped fuel (h ++ [JDict jd']) (tr ++ tr1) (acc ++ new)
                (ys ++ omap kept_block l) ltac:(simpl in Hfuel; lia) Hacc')
      as (refs & h' & tr' & Hrest & Hrefs & Hh' & Htr').
    exists refs, (JDict jd' :: h'), (tr1 ++ tr').
    rewrite Hrun, Hrest. split_and!.
    + by rewrite <- !app_assoc.
    + rewrite <- app_assoc in Hrefs. simpl in Hrefs.
      rewrite fmap_cons. cbn [snd concat]. by rewrite omap_app, app_assoc.
    + simpl. by rewrite Hh'.
    + rewrite network_calls_app, Hreq, Htr'. done.
Qed.

(** The loop does not end while the server announces further pages. *)
Lemma fetch_loop_endless fuel :
  (∀ cursor, ∃ jd l more next,
      notion_blocks_children_list block_id cursor 100 = Answer (JDict jd) ∧
      jd !! "results" = Some (JList l) ∧
      Forall (λ x, typed_block x = true) l ∧
      jd !! "has_more" = Some more ∧ truthy more = true ∧
      jd !! "next_cursor" = Some next) →
  ∀ cursor acc h tr,
    (fetch_loop fuel block_id 0 debug cursor acc (World h tr)).1 = OutOfFuel.
Proof.
  intros Hserver. induction fuel as [|fuel IH]; intros cursor acc h tr; [done|].
  destruct (Hserver cursor) as (jd & l & more & next & Hans & Hres & Hl & Hmore & Ht & Hn).
  destruct (fetch_loop_page fuel cursor jd l more acc h tr Hans Hres Hl Hmore)
    as (new & tr1 & Hrun & _ & _). cbn zeta in Hrun.
  rewrite Hrun, Ht.
  set (jd' := <["results" := JList (map processed_block l)]> jd) in *.
  pose proof (heap_at_last h (JDict jd') []) as Eb'. simpl in Eb'.
  assert (jd' !! "next_cursor" = Some next) as Hcur'
    by (unfold jd'; by rewrite lookup_insert_ne).
  run (getitem_dict _ _ _ _ _ _ Eb' Hcur').
  run (load_run _ _ _ _ (heap_at_child_dict _ _ _ _ _ Eb' Hcur')).
  apply IH.
Qed.

End FetchPages.





(** ** The upload loop, call by call *)

Lemma slice_batch {A} (l : list A) e n :
  n = length l → e ≤ n →
  slice l e ((e + page_size) `min` n) = take page_size (drop e l).
Proof.
  intros -> He. unfold slice.
  destruct (decide (e + page_size ≤ length l)).
  - rewrite Nat.min_l by done. f_equal. lia.
  - rewrite Nat.min_r by lia.
    rewrite !take_ge; [done|rewrite length_drop; lia..].
Qed.

Lemma ceil_div_10 n :
  let k := ceil_div n 10 in
  k ≤ n ∧ n ≤ 10 * k ∧ (k = 0 ∨ 10 * (k - 1) < n).
Proof.
  unfold ceil_div.
  pose proof (Nat.div_mod_eq (n + (10 - 1)) 10).
  pose proof (Nat.mod_upper_bound (n + (10 - 1)) 10).
  cbn zeta. lia.
Qed.

Section UploadMore.
Context `{External}.
Variables (new_page : ref) (tb : list ref) (debug : bool).
Variables (snaps : list json) (pd : gmap string json) (idv : json).
Hypothesis page_id : pd !! "id" = Some idv.

Lemma upload_loop_done fuel e w :
  length tb ≤ e → upload_loop fuel new_page tb debug e w = (Return tt, w).
Proof.
  intros He. destruct fuel; cbn [upload_loop];
    by rewrite bool_decide_eq_false_2 by lia.
Qed.

Lemma upload_loop_round fuel e h tr j :
  Forall2 (λ r j, heap_at h r = Some j) tb snaps →
  heap_at h new_page = Some (JDict pd) →
  e < length tb →
  notion_blocks_children_append idv (take page_size (drop e snaps)) = Answer j →
  ∃ tr1,
    upload_loop (S fuel) new_page tb debug e (World h tr) =
      upload_loop fuel new_page tb debug ((e + page_size) `min` length tb)
        (World (h ++ [j]) (tr ++ tr1)) ∧
    network_calls tr1 = [EvChildrenAppend idv (take page_size (drop e snaps))].
Proof.
  intros Hsnaps Hpage He Hj.
  cbn [upload_loop]. rewrite bool_decide_eq_true_2 by done.
  set (e' := (e + page_size) `min` length tb).
  run (getitem_dict _ _ _ _ _ _ Hpage page_id).
  run (load_run _ _ _ _ (heap_at_child_dict _ _ _ _ _ Hpage page_id)).
  assert (Forall2 (λ r j, heap_at h r = Some j)
            (slice tb e e') (take page_size (drop e snaps))) as Hslice.
  { rewrite <- (slice_batch snaps e (length tb));
      [|by apply Forall2_length in Hsnaps|lia].
    unfold slice. by apply Forall2_take, Forall2_drop. }
  run (mapM_load _ _ _ _ Hslice).
  run (emit_run _ _ _). rewrite Hj. unfold answer. run (alloc_run _ _ _).
  destruct debug; unfold when.
  - run (load_run _ _ _ _ (heap_at_last h j [])). unfold print.
    run (emit_run _ _ _).
    rewrite <- app_assoc. eexists. split; [reflexivity|done].
  - run (ret_run _ _). eexists. split; [reflexivity|done].
Qed.

Lemma upload_loop_round_fails fuel e h tr msg :
  Forall2 (λ r j, heap_at h r = Some j) tb snaps →
  heap_at h new_page = Some (JDict pd) →
  e < length tb →
  notion_blocks_children_append idv (take page_size (drop e snaps)) =
    Failure msg →
  upload_loop (S fuel) new_page tb debug e (World h tr) =
    (Raise (ApiError msg),
     World h (tr ++ [EvChildrenAppend idv (take page_size (drop e snaps))])).
Proof.
  intros Hsnaps Hpage He Hj.
  cbn [upload_loop]. rewrite bool_decide_eq_true_2 by done.
  set (e' := (e + page_size) `min` length tb).
  run (getitem_dict _ _ _ _ _ _ Hpage page_id).
  run (load_run _ _ _ _ (heap_at_child_dict _ _ _ _ _ Hpage page_id)).
  assert (Forall2 (λ r j, heap_at h r = Some j)
            (slice tb e e') (take page_size (drop e snaps))) as Hslice.
  { rewrite <- (slice_batch snaps e (length tb));
      [|by apply Forall2_length in Hsnaps|lia].
    unfold slice. by apply Forall2_take, Forall2_drop. }
  run (mapM_load _ _ _ _ Hslice).
  run (emit_run _ _ _). rewrite Hj. unfold answer.
  by stop (raise_run _ _).
Qed.

Lemma upload_loop_rounds fuel h tr k :
  Forall2 (λ r j, heap_at h r = Some j) tb snaps →
  heap_at h new_page = Some (JDict pd) →
  k ≤ fuel →
  k = 0 ∨ page_size * (k - 1) < length tb →
  (∀ i, i < k →
     ∃ j, notion_blocks_children_append idv
            (take page_size (drop (page_size * i) snaps)) = Answer j) →
  ∃ h' tr',
    upload_loop fuel new_page tb debug 0 (World h tr) =
      upload_loop (fuel - k) new_page tb debug ((page_size * k) `min` length tb)
        (World (h ++ h') (tr ++ tr')) ∧
    network_calls tr' =
      map (λ i, EvChildrenAppend idv (take page_size (drop (page_size * i) snaps)))
        (seq 0 k) ∧
    length h' = k.
Proof.
  intros Hsnaps Hpage. induction k as [|k IH]; intros Hfuel Hk Hok.
  - exists [], []. by rewrite !app_nil_r, Nat.sub_0_r, Nat.mul_0_r.
  - destruct IH as (h' & tr' & Hrun & Htr & Hlen);
      [lia|unfold page_size in *; lia|intros i Hi; apply Hok; lia|].
    assert (page_size * k < length tb) as Hlt
      by (unfold page_size in *; destruct Hk; [done|];
          by replace (S k - 1) with k in * by lia).
    destruct (Hok k) as [j Hj]; [lia|].
    destruct (upload_loop_round (fuel - S k) (page_size * k) (h ++ h')
                (tr ++ tr') j) as (tr1 & Hround & Htr1); try done.
    { eapply Forall2_impl; [done|]. intros; by apply heap_at_app. }
    { by apply heap_at_app. }
    exists (h' ++ [j]), (tr' ++ tr1). split_and!.
    + rewrite Hrun, Nat.min_l by lia.
      replace (fuel - k) with (S (fuel - S k)) by lia.
      rewrite Hround, !app_assoc. do 2 f_equal. unfold page_size. lia.
    + rewrite network_calls_app, Htr, Htr1, seq_S, map_app. done.
    + rewrite length_app, Hlen. simpl. lia.
Qed.

Lemma upload_blocks_run h tr :
  Forall2 (λ r j, heap_at h r = Some j) tb snaps →
  heap_at h new_page = Some (JDict pd) →
  (∀ i, 10 * i < length snaps →
     ∃ j, notion_blocks_children_append idv (take 10 (drop (10 * i) snaps)) =
          Answer j) →
  ∃ h' tr',
    upload_blocks new_page tb debug (World h tr) =
      (Return tt, World (h ++ h') (tr ++ tr')) ∧
    network_calls tr' =
      map (λ i, EvChildrenAppend idv (take 10 (drop (10 * i) snaps)))
        (seq 0 (ceil_div (length snaps) 10)).
Proof.
  intros Hsnaps Hpage Hok.
  pose proof (Forall2_length _ _ _ Hsnaps) as Hlen.
  destruct (ceil_div_10 (length snaps)) as (Hk1 & Hk2 & Hk3).
  destruct (upload_loop_rounds (length tb) h tr (ceil_div (length snaps) 10)
              Hsnaps Hpage)
    as (h' & tr' & Hrun & Htr & _);
    [lia|unfold page_size; lia| |].
  { intros i Hi. apply Hok. lia. }
  exists h', tr'. unfold upload_blocks.
  by rewrite Hrun, upload_loop_done by (unfold page_size; lia).
Qed.

End UploadMore.





(** ** The page-creation request and its outcome *)

Section ReplicationMore.
Context `{External}.

Lemma submit_new_page_run rq debug h tr :
  match notion_pages_create (JDict rq) with
  | Answer j =>
      ∃ tr1,
        submit_new_page (JDict rq) debug (World h tr) =
          (Return (Ref (length h) []), World (h ++ [j]) (tr ++ tr1)) ∧
        network_calls tr1 = [EvPagesCreate (JDict rq)]
  | Failure msg =>
      ∃ tr1,
        submit_new_page (JDict rq) debug (World h tr) =
          (Raise (ApiError msg), World h (tr ++ tr1)) ∧
        network_calls tr1 = [EvPagesCreate (JDict rq)]
  end.
Proof.
  unfold submit_new_page, when, print.
  destruct (notion_pages_create (JDict rq)) as [j|msg] eqn:Hans;
    destruct debug; unfold answer.
  - run (emit_run _ _ _). run (ret_run _ _). run (emit_run _ _ _).
    run (alloc_run _ _ _). run (load_run _ _ _ _ (heap_at_last h j [])).
    run (emit_run _ _ _). rewrite ret_run, <- !app_assoc.
    eexists. split; [reflexivity|done].
  - run (ret_run _ _). run (ret_run _ _). run (emit_run _ _ _).
    run (alloc_run _ _ _). run (ret_run _ _). rewrite ret_run.
    eexists. split; [reflexivity|done].
  - run (emit_run _ _ _). run (ret_run _ _). run (emit_run _ _ _).
    stop (raise_run _ _). rewrite <- !app_assoc.
    eexists. split; [reflexivity|done].
  - run (ret_run _ _). run (ret_run _ _). run (emit_run _ _ _).
    stop (raise_run _ _).
    eexists. split; [reflexivity|done].
Qed.

Lemma new_page_request_dict d idv props td rd rest txt c p to_lang :
  ∃ rq, new_page_request d idv props td rd rest txt c p to_lang = JDict rq.
Proof. by eexists. Qed.

End ReplicationMore.









(** ** The whole run *)

Section MainMore.
Context `{External}.

Lemma try_except_Return {A} (c : M A) hd w a w' :
  c w = (Return a, w') → try_except c hd w = (Return a, w').
Proof. unfold try_except. by intros ->. Qed.

Lemma try_except_Raise {A} (c : M A) hd w e w' :
  c w = (Raise e, w') → is_Exception e = true →
  try_except c hd w = hd e w'.
Proof. unfold try_except. by intros -> ->. Qed.

Lemma when_debug (debug : bool) (c : M unit) h tr s :
  c (World h tr) = (Return tt, World h (tr ++ [EvStdout s])) →
  when debug c (World h tr) =
    (Return tt, World h (tr ++ if debug then [EvStdout s] else [])).
Proof. destruct debug; simpl; [done|by rewrite app_nil_r]. Qed.

Lemma retrieve_run url id h tr :
  content_id_of url = inr id →
  (content_id ← lift (content_id_of url);
   emit (EvPagesRetrieve content_id);;
   answer (notion_pages_retrieve content_id)) (World h tr) =
    match notion_pages_retrieve id with
    | Answer j =>
        (Return (Ref (length h) []), World (h ++ [j]) (tr ++ [EvPagesRetrieve id]))
    | Failure msg =>
        (Raise (ApiError msg), World h (tr ++ [EvPagesRetrieve id]))
    end.
Proof.
  intros ->. simpl lift. run (ret_run _ _). run (emit_run _ _ _).
  by destruct (notion_pages_retrieve id).
Qed.

End MainMore.






